(** * The request layer of the Mailgun client: [src/lib/request.ts]

    A shallow embedding of the [Request] class and of its three helpers
    ([isStream], [getAttachmentOptions], [streamToString]), followed by the
    properties of header merging, query dispatch, body encoding, multipart
    assembly and response normalisation.

    JavaScript values are modelled as immutable trees in the first part
    (module [Js]); module [Store] re-embeds the preparation phase of
    [Request.request] over an explicit object store, where spreading
    allocates and [delete] mutates, to settle what the method writes to, and
    [PrepareFacts.prepare_refines] shows that it computes what the tree
    model computes. *)

From Stdlib Require Import ZArith Ascii String List.
From Stdlib.Strings Require Import Byte.
From stdpp Require Import base option list strings gmap pretty sorting.

Open Scope Z_scope.

Set Warnings "-register-all".

(** ** JavaScript values *)

Module Js.

(** What a Node readable stream does once listeners are attached: it emits
    [data] chunks (Buffers), and may emit [error] or [end]. *)
Inductive StreamEvent :=
| EvData (chunk : list byte)
| EvError (err : string)
| EvEnd.

(** One call of [FormData.append(name, value, options?)]. *)
Record Field_ (V : Type) := mkField {
  field_name : string;
  field_value : V;
  field_options : option V
}.
Arguments mkField {V} _ _ _.
Arguments field_name {V} _.
Arguments field_value {V} _.
Arguments field_options {V} _.

(** [VNum n] is the Number nearest to the integer [n]: every Number without
    a fractional part is some [VNum n], an [n] beyond the range of the
    doubles stands for an infinity, and [VNaN] is NaN; Numbers with a
    fractional part are not represented. An object is the list of its own
    enumerable properties in the order the engine enumerates them: the array
    indices first, ascending, then the other keys in the order of their
    creation ([ordered] below, which [obj_set], [obj_delete] and
    [obj_assign] maintain). An array is the list of its elements (no holes).
    [VStream] is a Node readable stream, [VFormData] the injected multipart
    container seen as the log of its [append] calls, and [VSearchParams] a
    [URLSearchParams] seen as its list of pairs. *)
Inductive value :=
| VUndefined
| VNull
| VBool (b : bool)
| VNum (n : Z)
| VNaN
| VStr (s : string)
| VFun (src : string)
| VArr (items : list value)
| VObj (props : list (string * value))
| VStream (events : list StreamEvent)
| VFormData (fields : list (Field_ value))
| VSearchParams (pairs : list (string * string)).

Abbreviation Field := (Field_ value).
Abbreviation Props := (list (string * value)).

(** *** Completions: a value or a thrown exception *)

Record APIErrorOptions := mkAPIErrorOptions {
  err_status : Z;
  err_statusText : string;
  err_body_message : value   (* body: { message } *)
}.

Inductive JsError :=
| TypeError (msg : string)
| SyntaxError (msg : string)
| StreamFailure (err : string)
| TransportError (msg : string)
| APIError (opts : APIErrorOptions).

Inductive Completion (A : Type) :=
| Normal (a : A)
| Throw (e : JsError).
Arguments Normal {A} _.
Arguments Throw {A} _.

#[global] Instance Completion_ret : MRet Completion := λ A a, Normal a.
#[global] Instance Completion_bind : MBind Completion := λ A B f m,
  match m with
  | Normal a => f a
  | Throw e => Throw e
  end.

(** [forEach]: run [f] on each element in order, threading the accumulator;
    the first exception aborts the loop. *)
Fixpoint forEach {A S : Type} (f : S → A → Completion S) (l : list A) (s : S)
  : Completion S :=
  match l with
  | [] => Normal s
  | x :: r => s' ← f s x; forEach f r s'
  end.

(** *** Primitive operations of the language *)

Definition typeof (v : value) : string :=
  match v with
  | VUndefined => "undefined"
  | VNull => "object"
  | VBool _ => "boolean"
  | VNum _ | VNaN => "number"
  | VStr _ => "string"
  | VFun _ => "function"
  | VArr _ | VObj _ | VStream _ | VFormData _ | VSearchParams _ => "object"
  end.

(** ToBoolean *)
Definition truthy (v : value) : bool :=
  match v with
  | VUndefined | VNull | VNaN => false
  | VBool b => b
  | VNum n => negb (n =? 0)
  | VStr s => negb (String.eqb s EmptyString)
  | _ => true
  end.

Definition nullish (v : value) : bool :=
  match v with
  | VUndefined | VNull => true
  | _ => false
  end.

Definition Array_isArray (v : value) : bool :=
  match v with
  | VArr _ => true
  | _ => false
  end.

Definition chars (s : string) : list value :=
  (λ c, VStr (String c EmptyString)) <$> list_ascii_of_string s.

Definition indexed {V : Type} (l : list V) : list (string * V) :=
  imap (λ i x, (pretty i, x)) l.

(** The own enumerable string-keyed properties of a value, in enumeration
    order. Streams, functions and the two containers expose none here. *)
Definition own_entries (v : value) : Props :=
  match v with
  | VObj props => props
  | VArr items => indexed items
  | VStr s => indexed (chars s)
  | _ => []
  end.

(** Own properties that are not enumerable. *)
Definition hidden_names (v : value) : list string :=
  match v with
  | VArr _ | VStr _ => ["length"]
  | VFun _ => ["length"; "name"]
  | _ => []
  end.

Definition Object_keys (v : value) : Completion (list string) :=
  if nullish v then Throw (TypeError "Cannot convert undefined or null to object")
  else Normal (fst <$> own_entries v).

Definition Object_entries (v : value) : Completion Props :=
  if nullish v then Throw (TypeError "Cannot convert undefined or null to object")
  else Normal (own_entries v).

Definition own_property_names (v : value) : list string :=
  (fst <$> own_entries v) ++ hidden_names v.

Definition Object_getOwnPropertyNames (v : value) : Completion (list string) :=
  if nullish v then Throw (TypeError "Cannot convert undefined or null to object")
  else Normal (own_property_names v).

(** *** Property lists, over any type of values *)

Fixpoint obj_lookup {V : Type} (k : string) (ps : list (string * V)) : option V :=
  match ps with
  | [] => None
  | (k', v) :: r => if String.eqb k' k then Some v else obj_lookup k r
  end.

(** The place of a key among the own keys of an ordinary object
    (OrdinaryOwnPropertyKeys): the array indices come first, in ascending
    numeric order, then the other strings in the order of their creation. An
    array index is the canonical decimal form of an integer below
    [2^32 - 1]. *)
Definition digit_value (c : ascii) : option N :=
  let n := N_of_ascii c in
  if ((48 <=? n) && (n <=? 57))%N then Some (n - 48)%N else None.

Fixpoint digits_value (acc : N) (s : string) : option N :=
  match s with
  | EmptyString => Some acc
  | String c r => d ← digit_value c; digits_value (10 * acc + d)%N r
  end.

Definition array_index (k : string) : option N :=
  match k with
  | EmptyString => None
  | String c r =>
      if Ascii.eqb c "0" && negb (String.eqb r EmptyString) then None
      else n ← digits_value 0 k; if (n <? 4294967295)%N then Some n else None
  end.

(** [key_before k k']: the key [k] is listed before the key [k'] whichever
    of the two was created first. *)
Definition key_before (k k' : string) : bool :=
  match array_index k, array_index k' with
  | Some n, Some n' => (n <? n')%N
  | Some _, None => true
  | None, _ => false
  end.

Definition index_key (k : string) : Prop := is_Some (array_index k).

#[global] Instance index_key_dec (k : string) : Decision (index_key k).
Proof. unfold index_key. apply _. Defined.

(** No key of the list is due before an earlier one. *)
Definition ordered {V : Type} (ps : list (string * V)) : Prop :=
  StronglySorted (λ k k', key_before k' k = false) ps.*1.

(** Each key of the list is due before the later ones: array indices in
    strictly ascending numeric order. *)
Definition ascending {V : Type} (ps : list (string * V)) : Prop :=
  StronglySorted (λ p q, key_before p.1 q.1 = true) ps.

(** Overwrite the value of a key the object has: the key keeps its place. *)
Fixpoint obj_update {V : Type} (k : string) (v : V) (ps : list (string * V))
  : list (string * V) :=
  match ps with
  | [] => []
  | (k', v') :: r =>
      if String.eqb k' k then (k, v) :: r else (k', v') :: obj_update k v r
  end.

(** Create a key the object lacks: an array index goes before the first
    larger index or other key, any other key goes last. *)
Fixpoint obj_create {V : Type} (k : string) (v : V) (ps : list (string * V))
  : list (string * V) :=
  match ps with
  | [] => [(k, v)]
  | (k', v') :: r =>
      if key_before k k' then (k, v) :: (k', v') :: r
      else (k', v') :: obj_create k v r
  end.

(** [o[k] = v] on an ordinary object. *)
Definition obj_set {V : Type} (k : string) (v : V) (ps : list (string * V))
  : list (string * V) :=
  if obj_lookup k ps is Some _ then obj_update k v ps else obj_create k v ps.

(** [delete o[k]] *)
Definition obj_delete {V : Type} (k : string) (ps : list (string * V))
  : list (string * V) :=
  filter (λ kv, kv.1 ≠ k) ps.

(** [{ ...target, ...src }]: copy the entries of [src] over [target], one
    after the other in the order of [src]. *)
Definition obj_assign {V : Type} (target src : list (string * V))
  : list (string * V) :=
  fold_left (λ acc kv, obj_set kv.1 kv.2 acc) src target.

(** The object literal [{ k1: v1, ..., kn: vn }]: the properties are defined
    one after the other in the order written, on an empty object. *)
Definition object_literal {V : Type} (written : list (string * V))
  : list (string * V) :=
  obj_assign [] written.

(** [{ ...v }] for any [v]; [null] and [undefined] spread to nothing. *)
Definition spread (v : value) : Props := own_entries v.

(** Properties every instance of a kind carries besides its own enumerable
    ones. [Object.prototype] is left out: none of its names is read by the
    code below. *)
Definition inherent (v : value) (k : string) : value :=
  match v with
  | VArr items => if String.eqb k "length" then VNum (Z.of_nat (length items)) else VUndefined
  | VStr s => if String.eqb k "length" then VNum (Z.of_nat (String.length s)) else VUndefined
  | VStream _ =>
      if String.eqb k "pipe" then VFun "pipe"
      else if String.eqb k "on" then VFun "on"
      else VUndefined
  | VFormData _ => if String.eqb k "append" then VFun "append" else VUndefined
  | VSearchParams _ => if String.eqb k "append" then VFun "append" else VUndefined
  | _ => VUndefined
  end.

Definition ToString_nullish (v : value) : string :=
  if v is VNull then "null" else "undefined".

(** [v.k] / [v[k]] *)
Definition get_prop (v : value) (k : string) : Completion value :=
  if nullish v then
    Throw (TypeError ("Cannot read properties of " +:+ ToString_nullish v))
  else Normal (default (inherent v k) (obj_lookup k (own_entries v))).

(** [v?.k] *)
Definition opt_get (v : value) (k : string) : value :=
  if nullish v then VUndefined
  else default (inherent v k) (obj_lookup k (own_entries v)).

(** *** Number::toString, on the Numbers without a fractional part *)

(** The double nearest to an integer [x >= 0]: 53 significant bits, ties to
    the even significand. A result of [2^1024] or more is an infinity. *)
Definition nearest_double (x : Z) : Z :=
  if x <? 2 ^ 53 then x
  else
    let ulp := 2 ^ (Z.log2 x - 52) in
    let q := x / ulp in
    let r := x mod ulp in
    if (ulp <? 2 * r) || ((2 * r =? ulp) && Z.odd q)
    then (q + 1) * ulp else q * ulp.

(** The decimal with the fewest significant digits that denotes the double
    [x]: the multiples of [10^p] next to [x] are tried for [p] from the
    magnitude of [x] downwards; of two that round to [x] the nearer is taken,
    and the one with the even last digit when they are equally near. *)
Fixpoint shortest_decimal (fuel : nat) (x p : Z) : Z :=
  match fuel with
  | O => x
  | S fuel' =>
      let unit := 10 ^ p in
      let s := x / unit in
      let lo := s * unit in
      let hi := lo + unit in
      let ok_lo := nearest_double lo =? x in
      let ok_hi := nearest_double hi =? x in
      if ok_lo && ok_hi then
        if x - lo <? hi - x then lo
        else if hi - x <? x - lo then hi
        else if Z.even s then lo else hi
      else if ok_lo then lo
      else if ok_hi then hi
      else shortest_decimal fuel' x (p - 1)
  end.

Fixpoint drop_zeros (ds : list ascii) : list ascii :=
  match ds with
  | c :: r => if Ascii.eqb c "0" then drop_zeros r else ds
  | [] => []
  end.

(** A positive Number: its digits followed by zeros up to 21 digits, the
    exponent form beyond. *)
Definition Number_toString_pos (n : Z) : string :=
  let x := nearest_double n in
  if 2 ^ 1024 <=? x then "Infinity"
  else
    let magnitude := String.length (pretty x) in
    let digits := pretty (shortest_decimal magnitude x (Z.of_nat magnitude - 1)) in
    let e := (String.length digits - 1)%nat in
    if (String.length digits <=? 21)%nat then digits
    else
      match reverse (drop_zeros (reverse (list_ascii_of_string digits))) with
      | [] => digits
      | [d] => String d ("e+" +:+ pretty e)
      | d :: rest =>
          String d ("." +:+ string_of_list_ascii rest +:+ "e+" +:+ pretty e)
      end.

Definition Number_toString (n : Z) : string :=
  if n =? 0 then "0"
  else if n <? 0 then "-" +:+ Number_toString_pos (- n)
  else Number_toString_pos n.

(** *** The application/x-www-form-urlencoded serializer, which is what a
    [URLSearchParams] prints as. Strings are sequences of bytes here. *)
Definition hex_digit (n : N) : ascii :=
  default "0"%char (list_ascii_of_string "0123456789ABCDEF" !! N.to_nat n).

Definition urlencode_byte (c : ascii) : list ascii :=
  let n := N_of_ascii c in
  if (((48 <=? n) && (n <=? 57)) || ((65 <=? n) && (n <=? 90))
      || ((97 <=? n) && (n <=? 122))
      || (n =? 42) || (n =? 45) || (n =? 46) || (n =? 95))%N then [c]
  else if (n =? 32)%N then ["+"%char]
  else ["%"%char; hex_digit (n / 16); hex_digit (n mod 16)].

Definition urlencode (s : string) : string :=
  string_of_list_ascii (list_ascii_of_string s ≫= urlencode_byte).

Definition URLSearchParams_toString (pairs : list (string * string)) : string :=
  String.concat "&" ((λ kv, urlencode kv.1 +:+ "=" +:+ urlencode kv.2) <$> pairs).

(** ToString, as applied by [URLSearchParams.append] to its arguments. *)
Fixpoint ToString (v : value) : string :=
  match v with
  | VUndefined => "undefined"
  | VNull => "null"
  | VBool b => if b then "true" else "false"
  | VNum n => Number_toString n
  | VNaN => "NaN"
  | VStr s => s
  | VFun src => src
  | VArr items =>
      String.concat ","
        (List.map (λ x, match x with
                         | VUndefined | VNull => EmptyString
                         | _ => ToString x
                         end) items)
  | VObj _ | VStream _ => "[object Object]"
  | VFormData _ => "[object FormData]"
  | VSearchParams pairs => URLSearchParams_toString pairs
  end.

(** [String.prototype.toLocaleUpperCase], on the ASCII letters. *)
Definition upper_ascii (c : ascii) : ascii :=
  let n := nat_of_ascii c in
  if (97 <=? n)%nat && (n <=? 122)%nat then ascii_of_nat (n - 32) else c.

Definition toLocaleUpperCase (s : string) : string :=
  string_of_list_ascii (upper_ascii <$> list_ascii_of_string s).

End Js.

Import Js.

(** ** Promises and the transport's response *)

(** The state an awaited promise ends in; [Pending] is a promise that never
    settles. *)
Inductive Promise (A : Type) :=
| Resolved (a : A)
| Rejected (e : JsError)
| Pending.
Arguments Resolved {A} _.
Arguments Rejected {A} _.
Arguments Pending {A}.

(** [await] inside an [async] function. *)
#[global] Instance Promise_ret : MRet Promise := λ A a, Resolved a.
#[global] Instance Promise_bind : MBind Promise := λ A B f m,
  match m with
  | Resolved a => f a
  | Rejected e => Rejected e
  | Pending => Pending
  end.

(** A synchronous completion inside an [async] function. *)
Definition settle {A : Type} (c : Completion A) : Promise A :=
  match c with
  | Normal a => Resolved a
  | Throw e => Rejected e
  end.

(** The fetch-style response the transport hands back; [json] is what
    calling [response.json()] settles to. *)
Module Resp.
Record t := mk {
  ok : bool;
  status : Z;
  statusText : string;
  body : value;
  json : Promise value
}.
End Resp.

(** [interface APIResponse] *)
Module APIResponse.
Record t := mk {
  status : Z;
  body : value
}.
End APIResponse.

(** The collaborators the module imports: [btoa], [url-join], Node's Buffer
    decoding and the [ky-universal] transport. *)
Class Collaborators := {
  Btoa : string → string;
  urljoin : string → string → string;
  Buffer_toString_utf8 : list byte → string;
  ky : string → value → Promise Resp.t
}.

(** ** The three helpers *)

(** [typeof attachment === 'object' && typeof attachment.pipe === 'function'] *)
Definition isStream (attachment : value) : Completion bool :=
  if String.eqb (typeof attachment) "object" then
    pipe ← get_prop attachment "pipe";
    mret (String.eqb (typeof pipe) "function")
  else mret false.

(** [a && b] on values *)
Definition js_and (a b : value) : value :=
  if truthy a then b else a.

Definition getAttachmentOptions (item : value) : Completion value :=
  skip ← (if negb (String.eqb (typeof item) "object") then mret true
          else isStream item);
  if (skip : bool) then mret (VObj [])
  else
    filename ← get_prop item "filename";
    contentType ← get_prop item "contentType";
    knownLength ← get_prop item "knownLength";
    mret (VObj
      (obj_assign
        (obj_assign
          (obj_assign []
            (spread (if truthy filename
                     then VObj [("filename", filename)]
                     else VObj [("filename", VStr "file")])))
          (spread (js_and contentType (VObj [("contentType", contentType)]))))
        (spread (js_and knownLength (VObj [("knownLength", knownLength)]))))).

Section Helpers.
Context `{Collaborators}.

(** The listeners of [streamToString] run over the events of a stream:
    [data] pushes the chunk, [error] rejects, [end] resolves with the decoded
    concatenation of the chunks pushed so far. *)
Fixpoint drain (events : list StreamEvent) (chunks : list (list byte))
  : Promise value :=
  match events with
  | [] => Pending
  | EvData chunk :: rest => drain rest (chunks ++ [chunk])
  | EvError err :: _ => Rejected (StreamFailure err)
  | EvEnd :: _ => Resolved (VStr (Buffer_toString_utf8 (concat chunks)))
  end.

(** A value other than a [VStream] has no events of its own: calling an [on]
    that is not callable throws inside the promise executor, and an opaque
    callable [on] never invokes the listeners. *)
Definition streamToString (stream : value) : Promise value :=
  match stream with
  | VStream events => drain events []
  | _ =>
      on ← settle (get_prop stream "on");
      if String.eqb (typeof on) "function" then Pending
      else Rejected (TypeError "stream.on is not a function")
  end.

End Helpers.

(** ** The [Request] class *)

(** The fields set by the constructor. *)
Module This.
Record t := mk {
  username : string;
  key : string;
  url : string;
  timeout : value;
  headers : value
}.
End This.

(** [interface RequestOptions] *)
Module RequestOptions.
Record t := mk {
  username : string;
  key : string;
  url : string;
  timeout : value;
  headers : value
}.
End RequestOptions.

Definition array_items (v : value) : list value :=
  if v is VArr items then items else [].

(** [v[k]] where [v] is known not to be [null] or [undefined]. *)
Definition index (v : value) (k : string) : value := opt_get v k.

(** [v != null] *)
Definition loose_neq_null (v : value) : bool := negb (nullish v).

(** [formData.append(name, value, options?)] on the log of fields. *)
Definition append (fd : list Field) (name : string) (v : value)
    (options : option value) : list Field :=
  fd ++ [mkField name v options].

Module Request.
Section Class.
Context `{Collaborators}.

Definition constructor (options : RequestOptions.t) : This.t :=
  This.mk (RequestOptions.username options) (RequestOptions.key options)
    (RequestOptions.url options) (RequestOptions.timeout options)
    (if truthy (RequestOptions.headers options)
     then RequestOptions.headers options else VObj []).

Definition objectToURLSearchParams (data : value) : value :=
  if negb (truthy data) then VNull
  else VSearchParams ((λ kv, (kv.1, ToString kv.2)) <$> own_entries data).

(** Lines 73-81: the merged header object, before the [Content-Type] test. *)
Definition merged_headers (this : This.t) (options : Props) : Props :=
  let basic := Btoa (This.username this +:+ ":" +:+ This.key this) in
  obj_assign
    (obj_assign [("Authorization", VStr ("Basic " +:+ basic))]
       (spread (This.headers this)))
    (spread (opt_get (VObj options) "headers")).

(** Lines 83-86. *)
Definition strip_content_type (headers : Props) : Props :=
  if negb (truthy (index (VObj headers) "Content-Type"))
  then obj_delete "Content-Type" headers
  else headers.

(** Lines 88-93, on the options left after [delete options.headers]; the
    [query] read here is truthy where its property names are taken, so that
    [Object.getOwnPropertyNames] does not throw. *)
Definition move_query (options : Props) : Props :=
  let params := options in
  let query := opt_get (VObj options) "query" in
  if truthy query && (0 <? length (own_property_names query))%nat
  then obj_delete "query" (obj_set "searchParams" query params)
  else params.

(** The two arguments [request] passes to [ky] (lines 73-104). *)
Definition ky_call (this : This.t) (method url : string) (inputOptions : value)
  : string * value :=
  let options := spread inputOptions in
  let headers := merged_headers this options in
  let options := obj_delete "headers" options in
  let headers := strip_content_type headers in
  let params := move_query options in
  (urljoin (This.url this) url,
   VObj (obj_assign
           [("method", VStr (toLocaleUpperCase method));
            ("headers", VObj headers);
            ("throwHttpErrors", VBool false);
            ("timeout", This.timeout this)]
           params)).

(** Lines 106-121. *)
Definition normalize (response : Resp.t) : Promise APIResponse.t :=
  if negb (Resp.ok response) then
    stream ← settle (if truthy (Resp.body response)
                     then isStream (Resp.body response) else mret false);
    message ← (if (stream : bool) then streamToString (Resp.body response)
               else Resp.json response);
    Rejected (APIError (mkAPIErrorOptions (Resp.status response)
                          (Resp.statusText response) message))
  else
    body ← Resp.json response;
    mret (APIResponse.mk (Resp.status response) body).

Definition request (this : This.t) (method url : string) (inputOptions : value)
  : Promise APIResponse.t :=
  let call := ky_call this method url inputOptions in
  response ← ky call.1 call.2;
  normalize response.

(** The object literals built by [query] and [command]. *)
Definition query_options (query options : value) : value :=
  VObj (obj_assign [("query", query)] (spread options)).

Definition command_options (data options : value) : value :=
  VObj (obj_assign
          [("headers", VObj [("Content-Type", VStr "application/x-www-form-urlencoded")]);
           ("body", data)]
          (spread options)).

Definition query (this : This.t) (method url : string) (query options : value) :=
  request this method url (query_options query options).

Definition command (this : This.t) (method url : string) (data options : value) :=
  request this method url (command_options data options).

Definition get (this : This.t) (url : string) (q options : value) :=
  query this "get" url q options.

Definition head (this : This.t) (url : string) (q options : value) :=
  query this "head" url q options.

Definition options (this : This.t) (url : string) (q opts : value) :=
  query this "options" url q opts.

Definition post (this : This.t) (url : string) (data opts : value) :=
  command this "post" url (objectToURLSearchParams data) opts.

(** One attachment spec: lines 177-179 and 182-184. *)
Definition append_attachment (key : string) (formDataAcc : list Field)
    (item : value) : Completion (list Field) :=
  stream ← isStream item;
  itemData ← (if (stream : bool) then mret item else get_prop item "data");
  opts ← getAttachmentOptions item;
  mret (append formDataAcc key itemData (Some opts)).

(** The reducer of [createFormData] (lines 171-198). *)
Definition reducer (data : value) (formDataAcc : list Field) (key : string)
  : Completion (list Field) :=
  if String.eqb key "attachment" || String.eqb key "inline" then
    let obj := index data key in
    if Array_isArray obj then forEach (append_attachment key) (array_items obj) formDataAcc
    else append_attachment key formDataAcc obj
  else if Array_isArray (index data key) then
    forEach (λ acc item, mret (append acc key item None))
      (array_items (index data key)) formDataAcc
  else if loose_neq_null (index data key) then
    mret (append formDataAcc key (index data key) None)
  else mret formDataAcc.

Definition createFormData (data : value) : Completion value :=
  keys ← Object_keys data;
  fields ← forEach (reducer data)
             (List.filter (λ key, truthy (index data key)) keys) [];
  mret (VFormData fields).

Definition multi_params : value :=
  VObj [("headers", VObj [("Content-Type", VNull)])].

Definition postMulti (this : This.t) (url : string) (data : value)
  : Completion (Promise APIResponse.t) :=
  let params := multi_params in
  formData ← createFormData data;
  mret (command this "post" url formData params).

Definition putMulti (this : This.t) (url : string) (data : value)
  : Completion (Promise APIResponse.t) :=
  let params := multi_params in
  formData ← createFormData data;
  mret (command this "put" url formData params).

Definition put (this : This.t) (url : string) (data opts : value) :=
  command this "put" url (objectToURLSearchParams data) opts.

Definition patch (this : This.t) (url : string) (data opts : value) :=
  command this "patch" url (objectToURLSearchParams data) opts.

Definition delete (this : This.t) (url : string) (data opts : value) :=
  command this "delete" url (objectToURLSearchParams data) opts.

End Class.
End Request.

(** ** Views of the outgoing call *)

(** [response?.body && isStream(response.body)], as a boolean. *)
Definition streamed (body : value) : Completion bool :=
  if truthy body then isStream body else mret false.

Section Views.
Context `{Collaborators}.

(** The computed credential: [`Basic ${basic}`]. *)
Definition authorization (this : This.t) : value :=
  VStr ("Basic " +:+ Btoa (This.username this +:+ ":" +:+ This.key this)).

(** The entries spread from [options?.headers]. *)
Definition call_level_headers (inputOptions : value) : Props :=
  spread (opt_get (VObj (spread inputOptions)) "headers").

(** The entries spread from [this.headers]. *)
Definition instance_headers (this : This.t) : Props :=
  spread (This.headers this).

(** The [headers] object of the call, after lines 75-86. *)
Definition outgoing_headers (this : This.t) (inputOptions : value) : Props :=
  Request.strip_content_type
    (Request.merged_headers this (spread inputOptions)).

(** The options object handed to [ky]. *)
Definition sent_options (this : This.t) (method url : string)
    (inputOptions : value) : Props :=
  own_entries (Request.ky_call this method url inputOptions).2.

End Views.

(** The options object of a spec that is an object and not a stream, in
    closed form: [filename] always, the other two when truthy. *)
Definition inferred (item : value) : Props :=
  let filename := index item "filename" in
  let contentType := index item "contentType" in
  let knownLength := index item "knownLength" in
  [("filename", if truthy filename then filename else VStr "file")]
  ++ (if truthy contentType then [("contentType", contentType)] else [])
  ++ (if truthy knownLength then [("knownLength", knownLength)] else []).

(** The keys that pass the filter of line 170. *)
Definition kept_keys (data : value) : list string :=
  List.filter (λ key, truthy (index data key)) (fst <$> own_entries data).

(** The fields of a multipart body that carry a given name. *)
Definition named (k : string) (fields : list Field) : list Field :=
  filter (λ f, field_name f = k) fields.

Definition reserved (k : string) : bool :=
  String.eqb k "attachment" || String.eqb k "inline".

(** No spec in an array under a reserved key is [null] or [undefined]. *)
Definition specs_present (data : value) : Prop :=
  ∀ k item, reserved k = true → item ∈ array_items (index data k) →
            nullish item = false.

(** ** Concrete collaborators, for running the code on inputs *)

Module Lab.

(** Base64, as [btoa] computes it on a string of bytes. *)
Definition b64_alphabet : list ascii :=
  list_ascii_of_string
    "ABCDEFGHIJKLMNOPQRSTUVWXYZabcdefghijklmnopqrstuvwxyz0123456789+/".

Definition b64_char (n : N) : ascii :=
  default "="%char (b64_alphabet !! N.to_nat n).

Fixpoint b64_groups (bytes : list N) : list ascii :=
  match bytes with
  | [] => []
  | [a] =>
      let n := (a * 65536)%N in
      [b64_char (n / 262144); b64_char ((n / 4096) mod 64);
       "="%char; "="%char]
  | [a; b] =>
      let n := (a * 65536 + b * 256)%N in
      [b64_char (n / 262144); b64_char ((n / 4096) mod 64);
       b64_char ((n / 64) mod 64); "="%char]
  | a :: b :: c :: rest =>
      let n := (a * 65536 + b * 256 + c)%N in
      [b64_char (n / 262144); b64_char ((n / 4096) mod 64);
       b64_char ((n / 64) mod 64); b64_char (n mod 64)]
      ++ b64_groups rest
  end%N.

Definition btoa (s : string) : string :=
  string_of_list_ascii (b64_groups (N_of_ascii <$> list_ascii_of_string s)).

(** A transport that answers every call with [reply]. *)
Definition collaborators (reply : Promise Resp.t) : Collaborators := {|
  Btoa := btoa;
  urljoin := λ base path, base +:+ path;
  Buffer_toString_utf8 := string_of_list_byte;
  ky := λ _ _, reply
|}.

Definition this (headers : value) : This.t :=
  This.mk "api" "key-1" "https://api.mailgun.net" (VNum 60000) headers.

Definition ok_reply : Promise Resp.t :=
  Resolved (Resp.mk true 200 "OK" VNull (Resolved (VObj [("id", VStr "1")]))).

End Lab.

(** ** The preparation of a request over an object store

    Here objects live in a store and values refer to them by location, so
    that a spread is an allocation and [delete] and assignment are writes to
    one object. *)

Module Store.

Definition loc := positive.

Inductive val :=
| Undefined
| Null
| Bool (b : bool)
| Num (n : Z)
| NaN
| Str (s : string)
| Ref (l : loc).

Inductive kind := Plain | Array | Function.

(** An object: what it is, and its own enumerable properties in order. *)
Record object := mkObject {
  kind_of : kind;
  props_of : list (string * val)
}.

Abbreviation heap := (gmap loc object).

Definition truthy (v : val) : bool :=
  match v with
  | Undefined | Null | NaN => false
  | Bool b => b
  | Num n => negb (n =? 0)
  | Str s => negb (String.eqb s EmptyString)
  | Ref _ => true
  end.

Definition nullish (v : val) : bool :=
  match v with
  | Undefined | Null => true
  | _ => false
  end.

(** Primitives print as in [Js.ToString]; the fields read through it here
    are strings by their declared type. *)
Definition ToString (v : val) : string :=
  match v with
  | Undefined => "undefined"
  | Null => "null"
  | Bool b => if b then "true" else "false"
  | Num n => Number_toString n
  | NaN => "NaN"
  | Str s => s
  | Ref _ => "[object Object]"
  end.

Definition deref (h : heap) (l : loc) : object :=
  default (mkObject Plain []) (h !! l).

Definition chars (s : string) : list val :=
  (λ c, Str (String c EmptyString)) <$> list_ascii_of_string s.

Definition own_entries (h : heap) (v : val) : list (string * val) :=
  match v with
  | Ref l => props_of (deref h l)
  | Str s => indexed (chars s)
  | _ => []
  end.

Definition hidden_names (h : heap) (v : val) : list string :=
  match v with
  | Str _ => ["length"]
  | Ref l =>
      match kind_of (deref h l) with
      | Plain => []
      | Array => ["length"]
      | Function => ["length"; "name"]
      end
  | _ => []
  end.

Definition own_property_names (h : heap) (v : val) : list string :=
  (own_entries h v).*1 ++ hidden_names h v.

Definition inherent (h : heap) (v : val) (k : string) : val :=
  match v with
  | Str s => if String.eqb k "length" then Num (Z.of_nat (String.length s)) else Undefined
  | Ref l =>
      match kind_of (deref h l) with
      | Array =>
          if String.eqb k "length"
          then Num (Z.of_nat (length (props_of (deref h l)))) else Undefined
      | _ => Undefined
      end
  | _ => Undefined
  end.

(** [v?.k] *)
Definition opt_get (h : heap) (v : val) (k : string) : val :=
  if nullish v then Undefined
  else default (inherent h v k) (obj_lookup k (own_entries h v)).

(** *** Commands on the store *)

Definition M (A : Type) : Type := heap → A * heap.

#[global] Instance M_ret : MRet M := λ A a h, (a, h).
#[global] Instance M_bind : MBind M := λ A B f m h,
  let r := m h in f r.1 r.2.

(** Evaluate an expression that only reads. *)
Definition read {A : Type} (f : heap → A) : M A := λ h, (f h, h).

(** A new object, at a location not in use. *)
Definition alloc (o : object) : M loc := λ h,
  let l := fresh (dom h) in (l, <[l := o]> h).

(** Rewrite the properties of the object at [l]. *)
Definition update (l : loc) (f : list (string * val) → list (string * val))
  : M unit := λ h,
  (tt, alter (λ o, mkObject (kind_of o) (f (props_of o))) l h).

(** [{ ...v }] *)
Definition spread_new (v : val) : M loc :=
  entries ← read (λ h, own_entries h v);
  alloc (mkObject Plain entries).

Section Prepare.
Context `{Collaborators}.

(** Lines 73-104 of [Request.request], with [this] the location of the
    instance: the result is the pair of arguments of the [ky] call. *)
Definition prepare (this : loc) (method url : string) (inputOptions : val)
  : M (string * val) :=
  options ← spread_new inputOptions;
  username ← read (λ h, opt_get h (Ref this) "username");
  key ← read (λ h, opt_get h (Ref this) "key");
  let basic := Btoa (ToString username +:+ ":" +:+ ToString key) in
  inst ← read (λ h, own_entries h (opt_get h (Ref this) "headers"));
  call ← read (λ h, own_entries h (opt_get h (Ref options) "headers"));
  headers ← alloc (mkObject Plain
               (obj_assign
                  (obj_assign [("Authorization", Str ("Basic " +:+ basic))] inst)
                  call));
  _ ← update options (obj_delete "headers");
  contentType ← read (λ h, opt_get h (Ref headers) "Content-Type");
  _ ← (if negb (truthy contentType)
       then update headers (obj_delete "Content-Type")
       else mret tt);
  params ← spread_new (Ref options);
  query ← read (λ h, opt_get h (Ref options) "query");
  names ← read (λ h, own_property_names h query);
  _ ← (if truthy query && (0 <? length names)%nat
       then _ ← update params (obj_set "searchParams" query);
            update params (obj_delete "query")
       else mret tt);
  base ← read (λ h, opt_get h (Ref this) "url");
  timeout ← read (λ h, opt_get h (Ref this) "timeout");
  rest ← read (λ h, own_entries h (Ref params));
  literal ← alloc (mkObject Plain
               (obj_assign
                  [("method", Str (toLocaleUpperCase method));
                   ("headers", Ref headers);
                   ("throwHttpErrors", Bool false);
                   ("timeout", timeout)]
                  rest));
  mret (urljoin (ToString base) url, Ref literal).

(** The properties the preparation leaves in the new [headers] object and
    in the new [params] object, in closed form over the store it starts
    from. *)
Definition headers_of (h : heap) (this : loc) (inputOptions : val)
  : list (string * val) :=
  let basic := Btoa (ToString (opt_get h (Ref this) "username") +:+ ":"
                     +:+ ToString (opt_get h (Ref this) "key")) in
  let entries := own_entries h inputOptions in
  let merged :=
    obj_assign
      (obj_assign [("Authorization", Str ("Basic " +:+ basic))]
         (own_entries h (opt_get h (Ref this) "headers")))
      (own_entries h (default Undefined (obj_lookup "headers" entries))) in
  if negb (truthy (default Undefined (obj_lookup "Content-Type" merged)))
  then obj_delete "Content-Type" merged
  else merged.

Definition params_of (h : heap) (inputOptions : val) : list (string * val) :=
  let options := obj_delete "headers" (own_entries h inputOptions) in
  let query := default Undefined (obj_lookup "query" options) in
  if truthy query && (0 <? length (own_property_names h query))%nat
  then obj_delete "query" (obj_set "searchParams" query options)
  else options.

End Prepare.

(** Every object of [h0] is still in [h], unchanged. *)
Definition preserved (h0 h : heap) : Prop :=
  ∀ l o, h0 !! l = Some o → h !! l = Some o.

(** Weakest precondition of a command. *)
Definition wp {A : Type} (m : M A) (Q : A → heap → Prop) (h : heap) : Prop :=
  Q (m h).1 (m h).2.

End Store.

(** ** Reading the store as trees

    [ρ] gives, for each location of a store, the tree that the object there
    unfolds to. *)

Module Reading.
Import Store.

Definition view (ρ : loc → value) (v : val) : value :=
  match v with
  | Undefined => VUndefined
  | Null => VNull
  | Bool b => VBool b
  | Num n => VNum n
  | NaN => VNaN
  | Str s => VStr s
  | Ref l => ρ l
  end.

Definition view_props (ρ : loc → value) (ps : list (string * val)) : Props :=
  prod_map id (view ρ) <$> ps.

(** A value that refers to no object outside [h]. *)
Definition valid (h : heap) (v : val) : Prop :=
  ∀ l, v = Ref l → is_Some (h !! l).

(** No object of [h] refers outside [h]. *)
Definition closed (h : heap) : Prop :=
  ∀ l o, h !! l = Some o → Forall (λ kv, valid h kv.2) (props_of o).

(** [ρ] unfolds each object of [h] as its kind and properties say. *)
Definition consistent (ρ : loc → value) (h : heap) : Prop :=
  ∀ l o, h !! l = Some o →
    match kind_of o with
    | Plain => ρ l = VObj (view_props ρ (props_of o))
    | Array =>
        ∃ items, props_of o = indexed items ∧ ρ l = VArr (view ρ <$> items)
    | Function => props_of o = [] ∧ ∃ src, ρ l = VFun src
    end.

(** The tree of a value of the store [new], which extends [old]: objects of
    [old] unfold by [ρ], the plain objects added since are read off [new],
    down to [depth] levels. *)
Fixpoint tree_of (ρ : loc → value) (old new : heap) (depth : nat) (v : val)
  : value :=
  match v with
  | Ref l =>
      if decide (is_Some (old !! l)) then ρ l
      else
        match depth with
        | O => VUndefined
        | S d =>
            VObj (prod_map id (tree_of ρ old new d) <$> props_of (deref new l))
        end
  | _ => view ρ v
  end.

(** The instance at [this], as the tree model has it. *)
Definition this_of (ρ : loc → value) (h : heap) (this : loc) : This.t :=
  This.mk
    (ToString (opt_get h (Ref this) "username"))
    (ToString (opt_get h (Ref this) "key"))
    (ToString (opt_get h (Ref this) "url"))
    (view ρ (opt_get h (Ref this) "timeout"))
    (view ρ (opt_get h (Ref this) "headers")).

End Reading.

(** A store with an instance at 1 (default headers at 2) and a caller's
    options at 3 (its headers at 4, its query at 5). *)
Definition demo_heap : Store.heap :=
  list_to_map
    [(1%positive,
      Store.mkObject Store.Plain
        [("username", Store.Str "api"); ("key", Store.Str "key-1");
         ("url", Store.Str "https://api.mailgun.net");
         ("timeout", Store.Num 60000); ("headers", Store.Ref 2%positive)]);
     (2%positive,
      Store.mkObject Store.Plain [("X-Env", Store.Str "prod")]);
     (3%positive,
      Store.mkObject Store.Plain
        [("headers", Store.Ref 4%positive); ("query", Store.Ref 5%positive)]);
     (4%positive,
      Store.mkObject Store.Plain [("Content-Type", Store.Null)]);
     (5%positive,
      Store.mkObject Store.Plain [("a", Store.Str "1")])].

(** The trees the objects of [demo_heap] unfold to. *)
Definition demo_trees (l : Store.loc) : value :=
  let headers := VObj [("X-Env", VStr "prod")] in
  let call_headers := VObj [("Content-Type", VNull)] in
  let query := VObj [("a", VStr "1")] in
  match l with
  | 1%positive =>
      VObj [("username", VStr "api"); ("key", VStr "key-1");
            ("url", VStr "https://api.mailgun.net");
            ("timeout", VNum 60000); ("headers", headers)]
  | 2%positive => headers
  | 3%positive => VObj [("headers", call_headers); ("query", query)]
  | 4%positive => call_headers
  | 5%positive => query
  | _ => VUndefined
  end.

(** ** Further views, for the properties beyond the claims *)

(** The number of fields a kept key contributes: one per element for an
    array, one otherwise. *)
Definition field_count (v : value) : nat :=
  if Array_isArray v then length (array_items v) else 1%nat.

(** The entries of the literal of lines 97-103 that the spread of [params]
    may overwrite. *)
Definition literal_defaults (this : This.t) (method : string) : Props :=
  [("method", VStr (toLocaleUpperCase method));
   ("throwHttpErrors", VBool false);
   ("timeout", This.timeout this)].

(** A [URLSearchParams] read back as an object of strings. *)
Definition pairs_as_entries (pairs : list (string * string)) : Props :=
  (λ kv, (kv.1, VStr kv.2)) <$> pairs.

(** ** Property lists: lookup after set, delete and assign *)

Section PropLists.
Context {V : Type}.
Implicit Types (k : string) (v : V) (ps qs target src : list (string * V)).
Implicit Types (kv : string * V).

Lemma obj_lookup_Some_elem k v ps :
  obj_lookup k ps = Some v → (k, v) ∈ ps.
Proof.
  induction ps as [|[k' v'] ps IH]; simpl; [done|].
  destruct (String.eqb_spec k' k) as [->|Hne].
  - intros [= ->]. left.
  - intros Hl. right. by apply IH.
Qed.

Lemma obj_lookup_None k ps :
  obj_lookup k ps = None ↔ k ∉ ps.*1.
Proof.
  induction ps as [|[k' v'] ps IH]; simpl.
  - split; [intros _; apply not_elem_of_nil | done].
  - destruct (String.eqb_spec k' k) as [->|Hne].
    + split; [done | intros Hn; exfalso; apply Hn; left].
    + rewrite IH, not_elem_of_cons. intuition congruence.
Qed.

Lemma obj_lookup_elem_NoDup k v ps :
  NoDup ps.*1 → (k, v) ∈ ps → obj_lookup k ps = Some v.
Proof.
  induction ps as [|[k' v'] ps IH]; simpl; intros Hnd Hin.
  - by apply elem_of_nil in Hin.
  - apply NoDup_cons in Hnd as [Hnotin Hnd].
    apply elem_of_cons in Hin as [[= <- <-]|Hin].
    + by rewrite String.eqb_refl.
    + destruct (String.eqb_spec k' k) as [->|Hne]; [|by apply IH].
      exfalso. apply Hnotin. apply list_elem_of_fmap. by exists (k, v).
Qed.

Lemma obj_lookup_app k ps qs :
  obj_lookup k (ps ++ qs) =
    match obj_lookup k ps with
    | Some v => Some v
    | None => obj_lookup k qs
    end.
Proof.
  induction ps as [|[k' v'] ps IH]; simpl; [done|].
  by destruct (String.eqb k' k).
Qed.

Lemma obj_lookup_update k k' v ps :
  is_Some (obj_lookup k' ps) →
  obj_lookup k (obj_update k' v ps) =
    if decide (k' = k) then Some v else obj_lookup k ps.
Proof.
  induction ps as [|[k0 v0] ps IH]; cbn [obj_lookup obj_update].
  - by intros [? ?].
  - destruct (String.eqb_spec k0 k') as [->|Hne]; cbn [obj_lookup].
    + intros _. destruct (String.eqb_spec k' k); by case_decide.
    + intros Hs. rewrite (IH Hs).
      destruct (String.eqb_spec k0 k) as [->|Hne']; [|done].
      by case_decide; [congruence|].
Qed.

Lemma obj_lookup_create k k' v ps :
  obj_lookup k' ps = None →
  obj_lookup k (obj_create k' v ps) =
    if decide (k' = k) then Some v else obj_lookup k ps.
Proof.
  induction ps as [|[k0 v0] ps IH]; cbn [obj_lookup obj_create].
  - intros _. destruct (String.eqb_spec k' k); by case_decide.
  - destruct (String.eqb_spec k0 k') as [->|Hne]; [done|]. intros Hn.
    destruct (key_before k' k0); cbn [obj_lookup].
    + destruct (String.eqb_spec k' k); by case_decide.
    + rewrite (IH Hn).
      destruct (String.eqb_spec k0 k) as [->|Hne']; [|done].
      by case_decide; [congruence|].
Qed.

Lemma obj_lookup_set k k' v ps :
  obj_lookup k (obj_set k' v ps) =
    if decide (k' = k) then Some v else obj_lookup k ps.
Proof.
  unfold obj_set. destruct (obj_lookup k' ps) as [w|] eqn:Hl.
  - apply obj_lookup_update. by rewrite Hl.
  - by apply obj_lookup_create.
Qed.

Lemma obj_lookup_delete k k' ps :
  obj_lookup k (obj_delete k' ps) =
    if decide (k' = k) then None else obj_lookup k ps.
Proof.
  unfold obj_delete.
  induction ps as [|[k0 v0] ps IH]; simpl.
  - by case_decide.
  - rewrite filter_cons. simpl.
    destruct (decide (k0 ≠ k')) as [Hne|Heq]; simpl; rewrite IH.
    + destruct (String.eqb_spec k0 k) as [->|Hne']; [|done].
      rewrite decide_False by congruence. done.
    + apply dec_stable in Heq. subst k0.
      destruct (String.eqb_spec k' k) as [->|Hne']; by case_decide.
Qed.

Lemma obj_assign_cons target kv src :
  obj_assign target (kv :: src) = obj_assign (obj_set kv.1 kv.2 target) src.
Proof. done. Qed.

(** The later of two entries of the source wins, and the source wins over
    the target. *)
Lemma obj_lookup_assign_rev k target src :
  obj_lookup k (obj_assign target src) =
    match obj_lookup k (reverse src) with
    | Some v => Some v
    | None => obj_lookup k target
    end.
Proof.
  revert target. induction src as [|[k' v'] src IH]; intros target; [done|].
  rewrite obj_assign_cons, IH, reverse_cons, obj_lookup_app. simpl.
  destruct (obj_lookup k (reverse src)); [done|].
  rewrite obj_lookup_set.
  destruct (String.eqb_spec k' k); by case_decide.
Qed.

Lemma obj_lookup_reverse_None k ps :
  obj_lookup k ps = None → obj_lookup k (reverse ps) = None.
Proof.
  rewrite !obj_lookup_None, fmap_reverse, elem_of_reverse. done.
Qed.

Lemma obj_lookup_reverse k ps :
  NoDup ps.*1 → obj_lookup k (reverse ps) = obj_lookup k ps.
Proof.
  intros Hnd.
  destruct (obj_lookup k ps) as [v|] eqn:Hl.
  - apply obj_lookup_elem_NoDup.
    + by rewrite fmap_reverse, reverse_Permutation.
    + apply elem_of_reverse. by apply obj_lookup_Some_elem.
  - by apply obj_lookup_reverse_None.
Qed.

Lemma obj_lookup_assign k target src :
  NoDup src.*1 →
  obj_lookup k (obj_assign target src) =
    match obj_lookup k src with
    | Some v => Some v
    | None => obj_lookup k target
    end.
Proof. intros Hnd. by rewrite obj_lookup_assign_rev, obj_lookup_reverse. Qed.

Lemma obj_lookup_assign_None k target src :
  obj_lookup k src = None →
  obj_lookup k (obj_assign target src) = obj_lookup k target.
Proof.
  intros Hl. by rewrite obj_lookup_assign_rev, obj_lookup_reverse_None.
Qed.

End PropLists.

Section KeysOfPropLists.
Context {V : Type}.
Implicit Types (k : string) (v : V) (ps target src : list (string * V)).

Lemma obj_update_keys k v ps : (obj_update k v ps).*1 = ps.*1.
Proof.
  induction ps as [|[k' v'] ps IH]; [done|]. cbn [obj_update].
  destruct (String.eqb_spec k' k) as [->|Hne]; [done|].
  by rewrite !fmap_cons, IH.
Qed.

Lemma obj_create_Permutation k v ps : obj_create k v ps ≡ₚ (k, v) :: ps.
Proof.
  induction ps as [|[k' v'] ps IH]; [done|]. cbn [obj_create].
  destruct (key_before k k'); [done|]. by rewrite IH, Permutation_swap.
Qed.

(** Setting a key keeps the keys of the object, with the new one added. *)
Lemma obj_set_keys k v ps :
  (obj_set k v ps).*1 ≡ₚ if decide (k ∈ ps.*1) then ps.*1 else k :: ps.*1.
Proof.
  unfold obj_set. destruct (obj_lookup k ps) as [w|] eqn:Hl.
  - rewrite obj_update_keys, decide_True; [done|].
    apply obj_lookup_Some_elem in Hl. apply list_elem_of_fmap. by exists (k, w).
  - rewrite obj_create_Permutation.
    apply obj_lookup_None in Hl. by rewrite decide_False.
Qed.

Lemma obj_set_NoDup k v ps : NoDup ps.*1 → NoDup (obj_set k v ps).*1.
Proof.
  intros Hnd. rewrite obj_set_keys. case_decide; [done|].
  by apply NoDup_cons.
Qed.

Lemma obj_assign_NoDup target src :
  NoDup target.*1 → NoDup (obj_assign target src).*1.
Proof.
  revert target. induction src as [|[k v] src IH]; intros target Hnd; [done|].
  rewrite obj_assign_cons. apply IH. by apply obj_set_NoDup.
Qed.

Lemma obj_delete_NoDup k ps : NoDup ps.*1 → NoDup (obj_delete k ps).*1.
Proof.
  unfold obj_delete. induction ps as [|[k' v'] ps IH]; simpl; [done|].
  intros [Hnin Hnd]%NoDup_cons. rewrite filter_cons. simpl.
  case_decide; [|by apply IH]. simpl. apply NoDup_cons. split; [|by apply IH].
  intros Hin. apply Hnin. apply list_elem_of_fmap in Hin as [[k0 v0] [-> Hin]].
  apply list_elem_of_filter in Hin as [_ Hin].
  apply list_elem_of_fmap. by exists (k0, v0).
Qed.

End KeysOfPropLists.

(** ** The order of the keys *)

Example object_literal_order :
  object_literal [("b", VNum 1); ("10", VNum 2); ("a", VNum 3); ("9", VNum 4);
                  ("b", VNum 5); ("01", VNum 6); ("4294967295", VNum 7)]
  = [("9", VNum 4); ("10", VNum 2); ("b", VNum 5); ("a", VNum 3);
     ("01", VNum 6); ("4294967295", VNum 7)].
Proof. reflexivity. Qed.

Example spread_order :
  obj_assign [("Authorization", VStr "Basic"); ("X-Env", VStr "prod")]
    (spread (VArr [VStr "zero"; VStr "one"]))
  = [("0", VStr "zero"); ("1", VStr "one");
     ("Authorization", VStr "Basic"); ("X-Env", VStr "prod")].
Proof. reflexivity. Qed.

(** *** Array indices *)

Section ArrayIndices.
Local Open Scope N_scope.

Lemma digit_value_Some c d :
  digit_value c = Some d → d < 10 ∧ N_of_ascii c = d + 48.
Proof.
  unfold digit_value. case_match eqn:Hc; [|done]. intros [= <-].
  apply andb_true_iff in Hc as [?%N.leb_le ?%N.leb_le]. lia.
Qed.

Lemma digits_value_acc s acc :
  digits_value acc s
  = (λ r, acc * 10 ^ N.of_nat (String.length s) + r) <$> digits_value 0 s.
Proof.
  revert acc. induction s as [|c s IH]; intros acc.
  - simpl. f_equal. lia.
  - cbn [digits_value String.length]. destruct (digit_value c) as [d|]; [|done].
    simpl. rewrite (IH (10 * acc + d)), (IH (10 * 0 + d)).
    destruct (digits_value 0 s) as [r|]; [|done]. simpl. f_equal.
    rewrite Nat2N.inj_succ, N.pow_succ_r'. lia.
Qed.

Lemma digits_value_cons c s n :
  digits_value 0 (String c s) = Some n →
  ∃ d r, digit_value c = Some d ∧ digits_value 0 s = Some r
         ∧ n = d * 10 ^ N.of_nat (String.length s) + r.
Proof.
  cbn [digits_value]. destruct (digit_value c) as [d|]; [|done]. simpl.
  rewrite digits_value_acc. destruct (digits_value 0 s) as [r|]; [|done].
  simpl. intros [= <-]. exists d, r. split; [done|]. split; [done|]. lia.
Qed.

Lemma digits_value_bound s n :
  digits_value 0 s = Some n → n < 10 ^ N.of_nat (String.length s).
Proof.
  revert n. induction s as [|c s IH]; intros n.
  - intros [= <-]. simpl. lia.
  - intros (d & r & Hd & Hr & ->)%digits_value_cons.
    apply digit_value_Some in Hd as [Hd _]. specialize (IH r Hr).
    cbn [String.length]. rewrite Nat2N.inj_succ, N.pow_succ_r'. nia.
Qed.

Lemma digits_value_inj s s' n :
  String.length s = String.length s' →
  digits_value 0 s = Some n → digits_value 0 s' = Some n → s = s'.
Proof.
  revert s' n. induction s as [|c s IH]; intros [|c' s'] n Hlen; try done.
  injection Hlen as Hlen.
  intros (d & r & Hd & Hr & ->)%digits_value_cons
         (d' & r' & Hd' & Hr' & Heq)%digits_value_cons.
  pose proof (digits_value_bound _ _ Hr) as Hb.
  pose proof (digits_value_bound _ _ Hr') as Hb'.
  rewrite Hlen in Hb, Heq. revert Heq Hb Hb'.
  generalize (10 ^ N.of_nat (String.length s')). intros P Heq Hb Hb'.
  assert (d = d') as ->
    by (destruct (N.lt_trichotomy d d') as [?|[?|?]]; [nia | done | nia]).
  assert (r = r') as -> by lia.
  apply digit_value_Some in Hd as [_ Hc], Hd' as [_ Hc'].
  f_equal; [|by eapply IH].
  rewrite <- (ascii_N_embedding c), <- (ascii_N_embedding c'). congruence.
Qed.

Lemma array_index_Some k n :
  array_index k = Some n →
  digits_value 0 k = Some n
  ∧ (k = "0"%string
     ∨ ∃ c s, k = String c s ∧ 10 ^ N.of_nat (String.length s) <= n).
Proof.
  destruct k as [|c s]; [done|]. unfold array_index.
  destruct (Ascii.eqb_spec c "0") as [->|Hc];
    destruct (String.eqb_spec s EmptyString) as [->|Hs]; simpl andb; cbv iota;
    try done.
  - destruct (digits_value 0 "0") as [m|] eqn:Hm; [|done]. simpl.
    case_match; [|done]. intros [= <-]. split; [done | by left].
  - destruct (digits_value 0 (String c EmptyString)) as [m|] eqn:Hm; [|done].
    simpl. case_match; [|done]. intros [= <-]. split; [done|]. right.
    exists c, EmptyString. split; [done|].
    apply digits_value_cons in Hm as (d & r & Hd & [= <-] & ->).
    apply digit_value_Some in Hd as [_ Hd]. simpl.
    assert (d ≠ 0); [|lia]. intros ->. apply Hc.
    rewrite <- (ascii_N_embedding c), Hd. done.
  - destruct (digits_value 0 (String c s)) as [m|] eqn:Hm; [|done].
    simpl. case_match; [|done]. intros [= <-]. split; [done|]. right.
    exists c, s. split; [done|].
    apply digits_value_cons in Hm as (d & r & Hd & Hr & ->).
    apply digit_value_Some in Hd as [_ Hd].
    assert (d ≠ 0); [|nia]. intros ->. apply Hc.
    rewrite <- (ascii_N_embedding c), Hd. done.
Qed.

(** Two keys with the same array index are the same key. *)
Lemma array_index_inj k k' n :
  array_index k = Some n → array_index k' = Some n → k = k'.
Proof.
  intros [Hv Hk]%array_index_Some [Hv' Hk']%array_index_Some.
  assert (String.length k = String.length k') as Hlen;
    [|by eapply digits_value_inj].
  pose proof (digits_value_bound _ _ Hv) as Hb.
  pose proof (digits_value_bound _ _ Hv') as Hb'.
  destruct Hk as [->|(c & s & -> & Hlo)], Hk' as [->|(c' & s' & -> & Hlo')];
    try done.
  - injection Hv as <-. pose proof (N.pow_nonzero 10 (N.of_nat (String.length s'))). lia.
  - injection Hv' as <-. pose proof (N.pow_nonzero 10 (N.of_nat (String.length s))). lia.
  - cbn [String.length] in *. rewrite Nat2N.inj_succ in *.
    assert (10 ^ N.of_nat (String.length s) < 10 ^ N.succ (N.of_nat (String.length s'))) as H1 by lia.
    assert (10 ^ N.of_nat (String.length s') < 10 ^ N.succ (N.of_nat (String.length s))) as H2 by lia.
    apply N.pow_lt_mono_r_iff in H1; [|lia]. apply N.pow_lt_mono_r_iff in H2; [|lia]. lia.
Qed.

End ArrayIndices.

Section KeyOrder.
Context {V : Type}.
Implicit Types (k : string) (v : V) (ps target src : list (string * V)).

Lemma key_before_asym k k' : key_before k k' = true → key_before k' k = false.
Proof.
  unfold key_before. destruct (array_index k), (array_index k'); try done.
  rewrite N.ltb_lt, N.ltb_ge. lia.
Qed.

Lemma key_before_trans k1 k2 k3 :
  key_before k1 k2 = true → key_before k2 k3 = true → key_before k1 k3 = true.
Proof.
  unfold key_before.
  destruct (array_index k1), (array_index k2), (array_index k3); try done.
  rewrite !N.ltb_lt. lia.
Qed.

Lemma key_before_other k k' : ¬ index_key k → key_before k k' = false.
Proof.
  unfold key_before, index_key. intros Hk.
  destruct (array_index k); [|done]. destruct Hk. by eexists.
Qed.

Lemma obj_create_other k v ps : ¬ index_key k → obj_create k v ps = ps ++ [(k, v)].
Proof.
  intros Hk. induction ps as [|[k' v'] ps IH]; [done|]. cbn [obj_create].
  rewrite key_before_other by done. by rewrite IH.
Qed.

Lemma obj_set_fresh k v ps : k ∉ ps.*1 → obj_set k v ps = obj_create k v ps.
Proof. intros Hk%obj_lookup_None. unfold obj_set. by rewrite Hk. Qed.

Lemma obj_assign_snoc target src k v :
  obj_assign target (src ++ [(k, v)]) = obj_set k v (obj_assign target src).
Proof. unfold obj_assign. by rewrite fold_left_app. Qed.

(** *** The operations keep an object in order *)

Lemma ordered_create k v ps : ordered ps → ordered (obj_create k v ps).
Proof.
  unfold ordered. induction ps as [|[k' v'] ps IH]; cbn [obj_create].
  - intros _. repeat constructor.
  - rewrite fmap_cons. intros [Hall Hs]%StronglySorted_cons. simpl in Hall.
    destruct (key_before k k') eqn:Hb.
    + rewrite !fmap_cons. simpl. apply StronglySorted_cons. split.
      * apply Forall_cons. split; [by apply key_before_asym|].
        eapply Forall_impl; [exact Hall|]. intros x Hx. simpl in Hx.
        destruct (key_before x k) eqn:Hxk; [|done].
        by rewrite (key_before_trans x k k') in Hx.
      * by apply StronglySorted_cons.
    + rewrite fmap_cons. simpl. apply StronglySorted_cons. split; [|by apply IH].
      rewrite obj_create_Permutation, fmap_cons. by apply Forall_cons.
Qed.

Lemma ordered_set k v ps : ordered ps → ordered (obj_set k v ps).
Proof.
  intros Hps. unfold obj_set. destruct (obj_lookup k ps).
  - unfold ordered. by rewrite obj_update_keys.
  - by apply ordered_create.
Qed.

Lemma ordered_assign target src : ordered target → ordered (obj_assign target src).
Proof.
  revert target. induction src as [|[k v] src IH]; intros target Ht; [done|].
  rewrite obj_assign_cons. by apply IH, ordered_set.
Qed.

Lemma ordered_delete k ps : ordered ps → ordered (obj_delete k ps).
Proof.
  unfold ordered, obj_delete. induction ps as [|[k' v'] ps IH]; [done|].
  rewrite fmap_cons. intros [Hall Hs]%StronglySorted_cons.
  rewrite filter_cons. case_decide; [|by apply IH].
  rewrite fmap_cons. apply StronglySorted_cons. split; [|by apply IH].
  apply Forall_forall. intros x [[k0 v0] [-> [_ Hin]%list_elem_of_filter]]%list_elem_of_fmap.
  rewrite Forall_forall in Hall. apply Hall. apply list_elem_of_fmap. by exists (k0, v0).
Qed.

Lemma ordered_literal (written : list (string * V)) : ordered (object_literal written).
Proof. apply ordered_assign. constructor. Qed.

(** *** The array indices come first, the other keys follow *)

Lemma filter_keep (P : string * V → Prop) `{∀ x, Decision (P x)} ps :
  Forall P ps → filter P ps = ps.
Proof.
  induction 1 as [|kv ps Hkv _ IH]; [done|].
  by rewrite filter_cons_True, IH.
Qed.

Lemma filter_drop (P : string * V → Prop) `{∀ x, Decision (P x)} ps :
  Forall (λ kv, ¬ P kv) ps → filter P ps = [].
Proof.
  induction 1 as [|kv ps Hkv _ IH]; [done|].
  by rewrite filter_cons_False.
Qed.

Lemma Forall_filtered (P Q : string * V → Prop) `{∀ x, Decision (Q x)} ps :
  Forall P ps → Forall P (filter Q ps).
Proof.
  rewrite !Forall_forall. intros Hall kv [_ Hin]%list_elem_of_filter. by apply Hall.
Qed.

Lemma Forall_filter_self (Q : string * V → Prop) `{∀ x, Decision (Q x)} ps :
  Forall Q (filter Q ps).
Proof. apply Forall_forall. by intros kv [HQ _]%list_elem_of_filter. Qed.

Lemma ordered_split ps :
  ordered ps →
  ps = filter (λ kv, index_key kv.1) ps ++ filter (λ kv, ¬ index_key kv.1) ps.
Proof.
  unfold ordered. induction ps as [|[k v] ps IH]; [done|].
  rewrite fmap_cons. intros [Hall Hs]%StronglySorted_cons. simpl in Hall.
  destruct (decide (index_key k)) as [Hk|Hk].
  - rewrite filter_cons_True by done.
    rewrite filter_cons_False by (by intros Hn; apply Hn).
    rewrite <- app_comm_cons. f_equal. by apply IH.
  - rewrite filter_cons_False by done. rewrite filter_cons_True by done.
    assert (Forall (λ kv : string * V, ¬ index_key kv.1) ps) as Hothers.
    { apply Forall_fmap in Hall. eapply Forall_impl; [exact Hall|].
      intros [k' v'] Hb Hk'. simpl in *. unfold key_before, index_key in *.
      destruct Hk' as [n Hn]. rewrite Hn in Hb.
      destruct (array_index k); [destruct Hk; by eexists | done]. }
    rewrite (filter_drop (λ kv, index_key kv.1)) by done.
    by rewrite (filter_keep (λ kv, ¬ index_key kv.1)).
Qed.

Lemma others_create k v ps :
  filter (λ kv, ¬ index_key kv.1) (obj_create k v ps)
  = filter (λ kv, ¬ index_key kv.1) ps
    ++ (if decide (index_key k) then [] else [(k, v)]).
Proof.
  destruct (decide (index_key k)) as [Hk|Hk].
  - rewrite app_nil_r. induction ps as [|[k' v'] ps IH]; cbn [obj_create].
    + by rewrite filter_cons_False by (by intros Hn; apply Hn).
    + destruct (key_before k k').
      * by rewrite (filter_cons_False _ (k, v)) by (by intros Hn; apply Hn).
      * by rewrite !(filter_cons _ (k', v')), IH.
  - rewrite obj_create_other, filter_app by done. f_equal.
    by rewrite filter_cons_True.
Qed.

Lemma others_update_head k v ps k0 v0 rest :
  filter (λ kv, ¬ index_key kv.1) ps = (k0, v0) :: rest →
  ∃ w rest', filter (λ kv, ¬ index_key kv.1) (obj_update k v ps) = (k0, w) :: rest'.
Proof.
  induction ps as [|[k' v'] ps IH]; [done|]. cbn [obj_update].
  destruct (String.eqb_spec k' k) as [->|Hne].
  - rewrite !filter_cons. simpl. case_decide; [|by eauto].
    intros [= -> _ _]. by eauto.
  - rewrite !filter_cons. simpl. case_decide; [|done].
    intros [= -> -> _]. by eauto.
Qed.

Lemma others_set_head k v ps k0 v0 rest :
  filter (λ kv, ¬ index_key kv.1) ps = (k0, v0) :: rest →
  ∃ w rest', filter (λ kv, ¬ index_key kv.1) (obj_set k v ps) = (k0, w) :: rest'.
Proof.
  intros Hps. unfold obj_set. destruct (obj_lookup k ps).
  - by eapply others_update_head.
  - rewrite others_create, Hps. by eauto.
Qed.

Lemma others_assign_head target src k0 v0 rest :
  filter (λ kv, ¬ index_key kv.1) target = (k0, v0) :: rest →
  ∃ w rest',
    filter (λ kv, ¬ index_key kv.1) (obj_assign target src) = (k0, w) :: rest'.
Proof.
  revert target v0 rest.
  induction src as [|[k v] src IH]; intros target v0 rest Ht; [by eauto|].
  rewrite obj_assign_cons.
  destruct (others_set_head k v target k0 v0 rest Ht) as (w & rest' & Hs).
  by eapply IH.
Qed.

Lemma indices_ascending ps :
  NoDup ps.*1 → ordered ps → Forall (λ kv, index_key kv.1) ps → ascending ps.
Proof.
  unfold ordered, ascending. induction ps as [|[k v] ps IH]; [constructor|].
  rewrite fmap_cons.
  intros [Hnin Hnd]%NoDup_cons [Hall Hs]%StronglySorted_cons [Hk Hps]%Forall_cons.
  apply StronglySorted_cons. split; [|by apply IH].
  apply Forall_forall. intros [k' v'] Hin.
  rewrite Forall_forall in Hall. rewrite Forall_forall in Hps.
  assert (k' ∈ ps.*1) as Hin' by (apply list_elem_of_fmap; by exists (k', v')).
  specialize (Hall k' Hin'). destruct (Hps _ Hin) as [n' Hn'].
  destruct Hk as [n Hn]. simpl in *. unfold key_before in *.
  rewrite Hn, Hn' in *. apply N.ltb_ge in Hall. apply N.ltb_lt.
  assert (n ≠ n'); [|lia]. intros ->.
  by rewrite (array_index_inj k k' n') in Hnin.
Qed.

Lemma indices_of_ordered_ascending ps :
  NoDup ps.*1 → ordered ps → ascending (filter (λ kv, index_key kv.1) ps).
Proof.
  intros Hnd Hord. pose proof (ordered_split ps Hord) as Hsplit.
  apply indices_ascending.
  - rewrite Hsplit, fmap_app in Hnd. by apply NoDup_app in Hnd as [? _].
  - unfold ordered in *. rewrite Hsplit, fmap_app in Hord.
    by apply StronglySorted_app_1_l in Hord.
  - apply Forall_filter_self.
Qed.

(** *** Keys that are all new *)

Lemma obj_assign_fresh target src :
  NoDup (target ++ src).*1 →
  obj_assign target src ≡ₚ target ++ src
  ∧ filter (λ kv, ¬ index_key kv.1) (obj_assign target src)
    = filter (λ kv, ¬ index_key kv.1) target
      ++ filter (λ kv, ¬ index_key kv.1) src.
Proof.
  revert target. induction src as [|[k v] src IH]; intros target Hnd.
  - by rewrite filter_nil, !app_nil_r.
  - rewrite obj_assign_cons. cbn [fst snd].
    assert (k ∉ target.*1) as Hk.
    { rewrite fmap_app in Hnd. apply NoDup_app in Hnd as (_ & Hd & _).
      intros Hin. apply (Hd k Hin). rewrite fmap_cons. left. }
    rewrite obj_set_fresh by done.
    destruct (IH (obj_create k v target)) as [Hp Hf].
    { by rewrite obj_create_Permutation, <- app_comm_cons, Permutation_middle. }
    split.
    + by rewrite Hp, obj_create_Permutation, <- app_comm_cons, Permutation_middle.
    + rewrite Hf, others_create, filter_cons. simpl.
      destruct (decide (index_key k)) as [Hi|Hi].
      * rewrite decide_False by (by intros Hn; apply Hn). by rewrite app_nil_r.
      * rewrite decide_True by done. by rewrite <- app_assoc.
Qed.

Lemma obj_assign_others target src :
  NoDup (target ++ src).*1 → Forall (λ kv, ¬ index_key kv.1) src →
  obj_assign target src = target ++ src.
Proof.
  intros Hnd Hsrc. revert target Hnd.
  induction Hsrc as [|[k v] src Hk _ IH]; intros target Hnd.
  - by rewrite app_nil_r.
  - rewrite obj_assign_cons. cbn [fst snd] in *.
    assert (k ∉ target.*1) as Hfresh.
    { rewrite fmap_app in Hnd. apply NoDup_app in Hnd as (_ & Hd & _).
      intros Hin. apply (Hd k Hin). rewrite fmap_cons. left. }
    rewrite obj_set_fresh, obj_create_other by done.
    rewrite IH; [by rewrite <- app_assoc|].
    by rewrite <- app_assoc.
Qed.

End KeyOrder.

Example btoa_padding :
  Lab.btoa "Man" = "TWFu" ∧ Lab.btoa "Ma" = "TWE=" ∧ Lab.btoa "M" = "TQ=="
  ∧ Lab.btoa "api:key-1" = "YXBpOmtleS0x".
Proof. repeat split. Qed.

(** ** URL-encoded bodies *)

Example objectToURLSearchParams_two :
  Request.objectToURLSearchParams
    (VObj [("to", VStr "a@b.c"); ("count", VNum 2)])
  = VSearchParams [("to", "a@b.c"); ("count", "2")].
Proof. reflexivity. Qed.

Example objectToURLSearchParams_numbers :
  Request.objectToURLSearchParams
    (VObj [("small", VNum 42); ("large", VNum (10 ^ 21)); ("wide", VNum (2 ^ 64))])
  = VSearchParams
      [("small", "42"); ("large", "1e+21"); ("wide", "18446744073709552000")].
Proof. vm_compute. reflexivity. Qed.

(** C6, as the code has it. Let a mapping be written with the distinct keys
    of [written], in that order. [objectToURLSearchParams] returns a
    [URLSearchParams] holding exactly one pair per entry, the key with the
    string form of the value, in the order in which the engine lists the
    properties: the array indices first, ascending, and then the other keys
    in the order written; so the pairs are in the order written whenever no
    key is an array index. For any object the i-th pair is the i-th entry
    that [Object.entries] yields. On [null] and on [undefined] the result is
    [null], which is not the empty [URLSearchParams] returned on an empty
    object. The result is the body that [post], [put], [patch] and [delete]
    give to [command]. *)
Theorem objectToURLSearchParams_pairs `{Collaborators} (written : Props) :
  NoDup written.*1 →
  let string_pair := λ kv : string * value, (kv.1, ToString kv.2) in
  (∃ pairs,
      Request.objectToURLSearchParams (VObj (object_literal written))
      = VSearchParams pairs
      ∧ length pairs = length written
      ∧ pairs ≡ₚ string_pair <$> written
      ∧ ordered pairs
      ∧ ascending (filter (λ p, index_key p.1) pairs)
      ∧ pairs = filter (λ p, index_key p.1) pairs
                ++ (string_pair <$> filter (λ kv, ¬ index_key kv.1) written)
      ∧ (Forall (λ kv, ¬ index_key kv.1) written →
         pairs = string_pair <$> written))
  ∧ (∀ props, ∃ pairs,
       Request.objectToURLSearchParams (VObj props) = VSearchParams pairs
       ∧ length pairs = length props
       ∧ ∀ (i : nat) k v, props !! i = Some (k, v) →
                          pairs !! i = Some (k, ToString v))
  ∧ Request.objectToURLSearchParams VNull = VNull
  ∧ Request.objectToURLSearchParams VUndefined = VNull
  ∧ Request.objectToURLSearchParams (VObj []) = VSearchParams []
  ∧ Request.objectToURLSearchParams (VObj [])
    ≠ Request.objectToURLSearchParams VNull
  ∧ (∀ this url data opts,
       let body := Request.objectToURLSearchParams data in
       Request.post this url data opts = Request.command this "post" url body opts
       ∧ Request.put this url data opts = Request.command this "put" url body opts
       ∧ Request.patch this url data opts
         = Request.command this "patch" url body opts
       ∧ Request.delete this url data opts
         = Request.command this "delete" url body opts).
Proof.
  intros Hnd string_pair.
  split; [|split; [|by repeat split]].
  - destruct (obj_assign_fresh [] written Hnd) as [Hperm Hothers].
    rewrite filter_nil, !app_nil_l in *. fold (object_literal written) in *.
    assert ((string_pair <$> object_literal written).*1
            = (object_literal written).*1) as Hkeys.
    { rewrite <- list_fmap_compose. by apply list_fmap_ext. }
    exists (string_pair <$> object_literal written).
    split; [done|]. split; [by rewrite length_fmap, Hperm|].
    split; [by rewrite Hperm|].
    assert (ordered (string_pair <$> object_literal written)) as Hord.
    { unfold ordered. rewrite Hkeys. apply ordered_literal. }
    split; [done|]. split.
    { apply indices_of_ordered_ascending; [|done].
      by rewrite Hkeys, Hperm. }
    split.
    + rewrite (ordered_split _ Hord) at 1. f_equal.
      rewrite <- Hothers. clear.
      induction (object_literal written) as [|[k v] ps IH]; [done|].
      rewrite fmap_cons, !filter_cons. simpl.
      case_decide; [rewrite fmap_cons; f_equal|]; apply IH.
    + intros Hall. unfold object_literal.
      by rewrite (obj_assign_others [] written Hnd Hall).
  - intros props.
    exists (string_pair <$> props). split; [done|].
    split; [by rewrite length_fmap|].
    intros i k v Hi. by rewrite list_lookup_fmap, Hi.
Qed.

Lemma objectToURLSearchParams_pairs_witness :
  ∃ pairs,
    Request.objectToURLSearchParams
      (VObj (object_literal
               [("to", VStr "a@b.c"); ("10", VNum 3); ("2", VBool true)]))
    = VSearchParams pairs
    ∧ pairs = [("2", "true"); ("10", "3"); ("to", "a@b.c")].
Proof.
  destruct (proj1 (objectToURLSearchParams_pairs
                     (H := Lab.collaborators Lab.ok_reply)
                     [("to", VStr "a@b.c"); ("10", VNum 3); ("2", VBool true)]
                     ltac:(compute_done)))
    as (pairs & Hpairs & _).
  exists pairs. split; [done|]. by injection Hpairs as <-.
Defined.

(** Against the claim as first stated: a mapping written with the key [b]
    and then the key [1] is encoded with [1] first, since the engine lists
    array indices before the other keys; the pairs are not in insertion
    order. *)
Lemma objectToURLSearchParams_not_insertion_order :
  let written := [("b", VStr "x"); ("1", VStr "y")] in
  NoDup written.*1
  ∧ Request.objectToURLSearchParams (VObj (object_literal written))
    = VSearchParams [("1", "y"); ("b", "x")]
  ∧ [("1", "y"); ("b", "x")] ≠ (λ kv, (kv.1, ToString kv.2)) <$> written.
Proof.
  split; [compute_done|]. split; [reflexivity|]. intros Heq. discriminate Heq.
Qed.

(** ** Response normalisation *)

Section Normalisation.
Context `{Collaborators}.

Lemma drain_data_end chunks rest acc :
  drain ((EvData <$> chunks) ++ EvEnd :: rest) acc
  = Resolved (VStr (Buffer_toString_utf8 (concat (acc ++ chunks)))).
Proof.
  revert acc. induction chunks as [|c chunks IH]; intros acc; simpl.
  - by rewrite app_nil_r.
  - by rewrite IH, <- app_assoc.
Qed.

Lemma drain_data_error chunks err rest acc :
  drain ((EvData <$> chunks) ++ EvError err :: rest) acc
  = Rejected (StreamFailure err).
Proof.
  revert acc. induction chunks as [|c chunks IH]; intros acc; simpl; [done|].
  by rewrite IH.
Qed.

Lemma drain_data_only chunks acc :
  drain (EvData <$> chunks) acc = Pending.
Proof.
  revert acc. induction chunks as [|c chunks IH]; intros acc; simpl; [done|].
  by rewrite IH.
Qed.

Lemma streamed_VStream events : streamed (VStream events) = Normal true.
Proof. reflexivity. Qed.

Lemma streamed_total body : ∃ b, streamed body = Normal b.
Proof.
  unfold streamed, isStream, get_prop.
  destruct body; simpl; repeat case_match; eauto.
Qed.

End Normalisation.

Example request_stream_abcd :
  let reply := Resp.mk false 400 "Bad Request"
                 (VStream [EvData ["a"; "b"]%byte; EvData ["c"; "d"]%byte; EvEnd])
                 (Rejected (SyntaxError "body used")) in
  Request.request (H := Lab.collaborators (Resolved reply))
    (Lab.this (VObj [])) "get" "/v3/domains" VUndefined
  = Rejected (APIError (mkAPIErrorOptions 400 "Bad Request" (VStr "abcd"))).
Proof. reflexivity. Qed.

Example request_json_bad :
  let reply := Resp.mk false 401 "Unauthorized" VNull
                 (Resolved (VObj [("message", VStr "bad")])) in
  Request.request (H := Lab.collaborators (Resolved reply))
    (Lab.this (VObj [])) "get" "/v3/domains" VUndefined
  = Rejected (APIError (mkAPIErrorOptions 401 "Unauthorized"
                          (VObj [("message", VStr "bad")]))).
Proof. reflexivity. Qed.

(** C1, as the code has it. Let the transport resolve to [response]. With
    [ok] false the call rejects with an [APIError] carrying [status],
    [statusText] and [body.message], where the message is the decoded
    concatenation of the chunks when the body is a stream that reaches [end]
    without an [error] event, and the whole parsed JSON when the body is not
    a stream and [json()] resolves; with [ok] true and [json()] resolving the
    call resolves to the status and the parsed JSON. Where [json()] rejects,
    or the stream emits [error], the call rejects with that very error. *)
Theorem request_normalizes `{Collaborators} (this : This.t)
    (method url : string) (inputOptions : value) (response : Resp.t) :
  ky (Request.ky_call this method url inputOptions).1
     (Request.ky_call this method url inputOptions).2 = Resolved response →
  let result := Request.request this method url inputOptions in
  let status := Resp.status response in
  let statusText := Resp.statusText response in
  (Resp.ok response = false →
     ∀ chunks rest,
       Resp.body response = VStream ((EvData <$> chunks) ++ EvEnd :: rest) →
       result = Rejected (APIError (mkAPIErrorOptions status statusText
                   (VStr (Buffer_toString_utf8 (concat chunks))))))
  ∧ (Resp.ok response = false →
     streamed (Resp.body response) = Normal false →
     ∀ parsed, Resp.json response = Resolved parsed →
       result = Rejected (APIError (mkAPIErrorOptions status statusText parsed)))
  ∧ (Resp.ok response = true →
     ∀ parsed, Resp.json response = Resolved parsed →
       result = Resolved (APIResponse.mk status parsed))
  ∧ (Resp.ok response = false →
     ∀ chunks err rest,
       Resp.body response = VStream ((EvData <$> chunks) ++ EvError err :: rest) →
       result = Rejected (StreamFailure err))
  ∧ (Resp.ok response = true ∨ streamed (Resp.body response) = Normal false →
     ∀ e, Resp.json response = Rejected e → result = Rejected e).
Proof.
  intros Hky result status statusText.
  subst result. unfold Request.request. rewrite Hky. simpl.
  unfold Request.normalize. fold (streamed (Resp.body response)).
  repeat split.
  - intros -> chunks rest ->. simpl. by rewrite drain_data_end.
  - by intros -> -> parsed ->.
  - by intros -> parsed ->.
  - intros -> chunks err rest ->. simpl. by rewrite drain_data_error.
  - intros [-> | Hns] e ->; [done|]. rewrite Hns.
    by destruct (Resp.ok response).
Qed.

Lemma request_normalizes_witness :
  Request.request (H := Lab.collaborators Lab.ok_reply)
    (Lab.this (VObj [])) "get" "/v3/domains" VUndefined
  = Resolved (APIResponse.mk 200 (VObj [("id", VStr "1")])).
Proof.
  exact (proj1 (proj2 (proj2
           (request_normalizes (H := Lab.collaborators Lab.ok_reply)
              (Lab.this (VObj [])) "get" "/v3/domains" VUndefined
              (Resp.mk true 200 "OK" VNull (Resolved (VObj [("id", VStr "1")])))
              eq_refl)))
         eq_refl _ eq_refl).
Defined.

(** Against the claim as first stated: a response with [ok] false whose body
    has no [pipe] (a browser's ReadableStream) and whose [json()] rejects (an
    HTML error page) makes the call reject with the parse error, not with an
    [APIError]. *)
Lemma request_unparsable_error_body :
  let reply := Resp.mk false 502 "Bad Gateway" (VObj [("locked", VBool false)])
                 (Rejected (SyntaxError "Unexpected token <")) in
  let result :=
    Request.request (H := Lab.collaborators (Resolved reply))
      (Lab.this (VObj [])) "get" "/v3/domains" VUndefined in
  Resp.ok reply = false
  ∧ streamed (Resp.body reply) = Normal false
  ∧ result = Rejected (SyntaxError "Unexpected token <")
  ∧ ¬ ∃ opts, result = Rejected (APIError opts).
Proof.
  do 3 (split; [done|]). intros [opts Hopts]. discriminate Hopts.
Qed.

(** ** Header merging *)

Section Headers.
Context `{Collaborators}.
Implicit Types (this : This.t) (inputOptions : value).

Lemma move_query_lookup_other k options :
  k ≠ "query" → k ≠ "searchParams" →
  obj_lookup k (Request.move_query options) = obj_lookup k options.
Proof.
  intros Hq Hs. unfold Request.move_query.
  case_match; [|done].
  rewrite obj_lookup_delete, decide_False by done.
  by rewrite obj_lookup_set, decide_False.
Qed.

(** What [ky] receives under [headers] is the object of lines 75-86: the
    spread of [params] cannot bring a [headers] key of its own. *)
Lemma ky_call_headers this method url inputOptions :
  obj_lookup "headers" (sent_options this method url inputOptions)
  = Some (VObj (outgoing_headers this inputOptions)).
Proof.
  unfold sent_options, Request.ky_call. simpl.
  rewrite obj_lookup_assign_None; [done|].
  rewrite move_query_lookup_other by done.
  by rewrite obj_lookup_delete, decide_True.
Qed.

Lemma merged_headers_lookup this inputOptions k :
  NoDup (instance_headers this).*1 →
  NoDup (call_level_headers inputOptions).*1 →
  obj_lookup k (Request.merged_headers this (spread inputOptions)) =
    match obj_lookup k (call_level_headers inputOptions) with
    | Some v => Some v
    | None =>
        match obj_lookup k (instance_headers this) with
        | Some v => Some v
        | None => if decide (k = "Authorization") then Some (authorization this) else None
        end
    end.
Proof.
  intros Hi Hc. unfold Request.merged_headers.
  rewrite obj_lookup_assign by done.
  fold (call_level_headers inputOptions).
  destruct (obj_lookup k (call_level_headers inputOptions)); [done|].
  rewrite obj_lookup_assign by done. fold (instance_headers this).
  destruct (obj_lookup k (instance_headers this)); [done|].
  cbn [obj_lookup]. fold (authorization this).
  destruct (String.eqb_spec "Authorization" k) as [<-|Hne].
  - by rewrite decide_True.
  - by rewrite decide_False.
Qed.

Lemma strip_content_type_lookup headers k :
  obj_lookup k (Request.strip_content_type headers) =
    if decide (k = "Content-Type")
    then v ← obj_lookup k headers; if truthy v then Some v else None
    else obj_lookup k headers.
Proof.
  unfold Request.strip_content_type, index, opt_get. simpl.
  destruct (decide (k = "Content-Type")) as [->|Hne].
  - destruct (obj_lookup "Content-Type" headers) as [v|] eqn:Hl; simpl.
    + destruct (truthy v); simpl; [done|].
      by rewrite obj_lookup_delete, decide_True.
    + by rewrite obj_lookup_delete, decide_True.
  - case_match; [|done]. by rewrite obj_lookup_delete, decide_False.
Qed.

End Headers.

Example headers_call_level_wins :
  outgoing_headers (H := Lab.collaborators Lab.ok_reply)
    (Lab.this (VObj [("X-Env", VStr "prod"); ("X-Tag", VStr "a")]))
    (VObj [("headers", VObj [("X-Tag", VStr "b")])])
  = [("Authorization", VStr "Basic YXBpOmtleS0x");
     ("X-Env", VStr "prod"); ("X-Tag", VStr "b")].
Proof. reflexivity. Qed.

(** C2, as the code has it. With each key occurring once in the instance
    default headers and in the call-level headers, the [headers] object
    handed to the transport holds, for every key other than a [Content-Type]
    whose merged value is falsy: the call-level value when the key is present
    at call level; else the instance default when present there; else, for
    [Authorization], the computed Basic credential; else nothing. A
    [Content-Type] whose merged value is falsy is absent from it. *)
Theorem outgoing_headers_precedence `{Collaborators} (this : This.t)
    (method url : string) (inputOptions : value) :
  NoDup (instance_headers this).*1 →
  NoDup (call_level_headers inputOptions).*1 →
  let sent := outgoing_headers this inputOptions in
  let call := call_level_headers inputOptions in
  let inst := instance_headers this in
  let kept (k : string) (v : value) := k ≠ "Content-Type" ∨ truthy v = true in
  obj_lookup "headers" (sent_options this method url inputOptions)
    = Some (VObj sent)
  ∧ (∀ k v, obj_lookup k call = Some v → kept k v → obj_lookup k sent = Some v)
  ∧ (∀ k v, obj_lookup k call = None → obj_lookup k inst = Some v →
            kept k v → obj_lookup k sent = Some v)
  ∧ (obj_lookup "Authorization" call = None →
     obj_lookup "Authorization" inst = None →
     obj_lookup "Authorization" sent = Some (authorization this))
  ∧ (∀ k, obj_lookup k call = None → obj_lookup k inst = None →
          k ≠ "Authorization" → obj_lookup k sent = None)
  ∧ (∀ v, obj_lookup "Content-Type" call = Some v
          ∨ (obj_lookup "Content-Type" call = None
             ∧ obj_lookup "Content-Type" inst = Some v) →
          truthy v = false → obj_lookup "Content-Type" sent = None).
Proof.
  intros Hi Hc sent call inst kept.
  split; [apply ky_call_headers|].
  assert (∀ k, obj_lookup k sent =
            if decide (k = "Content-Type")
            then v ← (match obj_lookup k call with
                      | Some v => Some v
                      | None => obj_lookup k inst
                      end); if truthy v then Some v else None
            else match obj_lookup k call with
                 | Some v => Some v
                 | None =>
                     match obj_lookup k inst with
                     | Some v => Some v
                     | None => if decide (k = "Authorization")
                               then Some (authorization this) else None
                     end
                 end) as Hsent.
  { intros k. subst sent. unfold outgoing_headers.
    rewrite strip_content_type_lookup, merged_headers_lookup by done.
    fold call inst. case_decide as Hk; [|done]. subst k.
    destruct (obj_lookup "Content-Type" call); [done|].
    destruct (obj_lookup "Content-Type" inst); [done|].
    by rewrite decide_False. }
  repeat split.
  - intros k v Hcall [Hk|Hv]; rewrite Hsent, Hcall.
    + by rewrite decide_False.
    + case_decide; [|done]. simpl. by rewrite Hv.
  - intros k v Hcall Hinst [Hk|Hv]; rewrite Hsent, Hcall, Hinst.
    + by rewrite decide_False.
    + case_decide; [|done]. simpl. by rewrite Hv.
  - intros Hcall Hinst. rewrite Hsent, Hcall, Hinst.
    rewrite decide_False by done. by rewrite decide_True.
  - intros k Hcall Hinst Hk. rewrite Hsent, Hcall, Hinst.
    case_decide; [done|]. by rewrite decide_False.
  - intros v [Hcall|[Hcall Hinst]] Hv; rewrite Hsent, decide_True by done.
    + rewrite Hcall. simpl. by rewrite Hv.
    + rewrite Hcall, Hinst. simpl. by rewrite Hv.
Qed.

Lemma outgoing_headers_precedence_witness :
  obj_lookup "X-Tag"
    (outgoing_headers (H := Lab.collaborators Lab.ok_reply)
       (Lab.this (VObj [("X-Env", VStr "prod"); ("X-Tag", VStr "a")]))
       (VObj [("headers", VObj [("X-Tag", VStr "b")])]))
  = Some (VStr "b").
Proof.
  refine (proj1 (proj2
    (outgoing_headers_precedence (H := Lab.collaborators Lab.ok_reply)
       (Lab.this (VObj [("X-Env", VStr "prod"); ("X-Tag", VStr "a")]))
       "post" "/v3/messages"
       (VObj [("headers", VObj [("X-Tag", VStr "b")])]) _ _))
    "X-Tag" (VStr "b") eq_refl (or_introl _)).
  - compute_done.
  - compute_done.
  - discriminate.
Defined.

(** Against the claim as first stated: a call-level [Content-Type] with a
    falsy value (the empty string here) does not reach the transport, so the
    outgoing mapping is not the three-way merge and the call-level value of
    that key is not the outgoing one. *)
Lemma outgoing_headers_not_the_merge :
  let this := Lab.this (VObj []) in
  let inputOptions := VObj [("headers", VObj [("Content-Type", VStr EmptyString)])] in
  let sent := outgoing_headers (H := Lab.collaborators Lab.ok_reply)
                this inputOptions in
  obj_lookup "Content-Type" (call_level_headers inputOptions) = Some (VStr EmptyString)
  ∧ obj_lookup "Content-Type" sent = None
  ∧ sent ≠ Request.merged_headers (H := Lab.collaborators Lab.ok_reply)
             this (spread inputOptions)
  ∧ obj_lookup "headers"
      (sent_options (H := Lab.collaborators Lab.ok_reply)
         this "post" "/v3/messages" inputOptions)
    = Some (VObj [("Authorization", VStr "Basic YXBpOmtleS0x")]).
Proof. repeat split; try reflexivity. discriminate. Qed.

(** ** Deletion of a falsy Content-Type *)

Lemma obj_delete_not_key (k : string) (ps : Props) :
  k ∉ (obj_delete k ps).*1.
Proof.
  apply obj_lookup_None. by rewrite obj_lookup_delete, decide_True.
Qed.

Lemma multi_call_level_headers (formData : value) :
  call_level_headers (Request.command_options formData Request.multi_params)
  = [("Content-Type", VNull)].
Proof. reflexivity. Qed.

Lemma multi_outgoing_content_type `{Collaborators} (this : This.t)
    (formData : value) :
  obj_lookup "Content-Type"
    (outgoing_headers this
       (Request.command_options formData Request.multi_params)) = None.
Proof.
  unfold outgoing_headers. rewrite strip_content_type_lookup. simpl.
  unfold Request.merged_headers.
  change (spread (opt_get (VObj (spread (Request.command_options formData
            Request.multi_params))) "headers"))
    with [("Content-Type", VNull)].
  rewrite obj_lookup_assign by compute_done. done.
Qed.

Example postMulti_headers :
  outgoing_headers (H := Lab.collaborators Lab.ok_reply)
    (Lab.this (VObj [("Content-Type", VStr "application/json")]))
    (Request.command_options (VFormData []) Request.multi_params)
  = [("Authorization", VStr "Basic YXBpOmtleS0x")].
Proof. reflexivity. Qed.

(** C8. The [headers] object handed to the transport is the merged one when
    the merged [Content-Type] is truthy, and the merged one without its
    [Content-Type] key when that value is absent or falsy; the requests made
    by [postMulti] and [putMulti], whose call-level [Content-Type] is [null],
    therefore carry no [Content-Type] key. *)
Theorem falsy_content_type_is_deleted `{Collaborators} (this : This.t)
    (method url : string) (inputOptions : value) :
  let merged := Request.merged_headers this (spread inputOptions) in
  let sent := outgoing_headers this inputOptions in
  obj_lookup "headers" (sent_options this method url inputOptions)
    = Some (VObj sent)
  ∧ (truthy (index (VObj merged) "Content-Type") = false →
       sent = obj_delete "Content-Type" merged
       ∧ ("Content-Type" ∉ sent.*1)
       ∧ ∀ k, k ≠ "Content-Type" → obj_lookup k sent = obj_lookup k merged)
  ∧ (truthy (index (VObj merged) "Content-Type") = true → sent = merged)
  ∧ (∀ data formData,
       Request.createFormData data = Normal formData →
       Request.postMulti this url data
         = Normal (Request.request this "post" url
                     (Request.command_options formData Request.multi_params))
       ∧ Request.putMulti this url data
         = Normal (Request.request this "put" url
                     (Request.command_options formData Request.multi_params))
       ∧ "Content-Type" ∉
           (outgoing_headers this
              (Request.command_options formData Request.multi_params)).*1).
Proof.
  intros merged sent. split; [apply ky_call_headers|].
  subst sent. unfold outgoing_headers, Request.strip_content_type.
  fold merged. split; [|split].
  - intros ->. simpl. split; [done|]. split; [apply obj_delete_not_key|].
    intros k Hk. by rewrite obj_lookup_delete, decide_False.
  - by intros ->.
  - intros data formData Hfd. unfold Request.postMulti, Request.putMulti.
    rewrite Hfd. split; [done|]. split; [done|].
    apply obj_lookup_None, multi_outgoing_content_type.
Qed.

Lemma falsy_content_type_is_deleted_witness :
  outgoing_headers (H := Lab.collaborators Lab.ok_reply)
    (Lab.this (VObj [])) (VObj [("headers", VObj [("Content-Type", VNum 0)])])
  = obj_delete "Content-Type"
      (Request.merged_headers (H := Lab.collaborators Lab.ok_reply)
         (Lab.this (VObj []))
         (spread (VObj [("headers", VObj [("Content-Type", VNum 0)])]))).
Proof.
  exact (proj1 (proj1 (proj2
    (falsy_content_type_is_deleted (H := Lab.collaborators Lab.ok_reply)
       (Lab.this (VObj [])) "post" "/v3/messages"
       (VObj [("headers", VObj [("Content-Type", VNum 0)])]))) eq_refl)).
Defined.

(** ** Headers given to [command] *)

Example post_custom_headers :
  outgoing_headers (H := Lab.collaborators Lab.ok_reply)
    (Lab.this (VObj []))
    (Request.command_options (Request.objectToURLSearchParams (VObj [("to", VStr "x")]))
       (VObj [("headers", VObj [("X-Foo", VStr "1")])]))
  = [("Authorization", VStr "Basic YXBpOmtleS0x"); ("X-Foo", VStr "1")].
Proof. reflexivity. Qed.

(** C10, as the code has it. When the options given to [command] carry a
    [headers] entry, that entry is the call-level headers of the request, in
    place of the url-encoded default; if it has no [Content-Type], the
    outgoing [Content-Type] is the truthy one of the instance default
    headers, if any, and is absent otherwise. So
    [post(url, data, {headers: {'X-Foo': '1'}})] has call-level headers
    exactly [{'X-Foo': '1'}], and carries no [Content-Type] when the instance
    defaults give none. *)
Theorem command_headers_replace_default `{Collaborators} (this : This.t)
    (url : string) (data options custom : value) :
  NoDup (spread options).*1 →
  obj_lookup "headers" (spread options) = Some custom →
  NoDup (spread custom).*1 →
  NoDup (instance_headers this).*1 →
  let inputOptions :=
    Request.command_options (Request.objectToURLSearchParams data) options in
  Request.post this url data options = Request.request this "post" url inputOptions
  ∧ obj_lookup "headers" (sent_options this "post" url inputOptions)
    = Some (VObj (outgoing_headers this inputOptions))
  ∧ opt_get inputOptions "headers" = custom
  ∧ call_level_headers inputOptions = spread custom
  ∧ (obj_lookup "Content-Type" (spread custom) = None →
       obj_lookup "Content-Type" (outgoing_headers this inputOptions)
       = (v ← obj_lookup "Content-Type" (instance_headers this);
          if truthy v then Some v else None))
  ∧ (custom = VObj [("X-Foo", VStr "1")] →
       call_level_headers inputOptions = [("X-Foo", VStr "1")]
       ∧ (obj_lookup "Content-Type" (instance_headers this) = None →
            "Content-Type" ∉ (outgoing_headers this inputOptions).*1)).
Proof.
  intros Hopts Hcustom Hnd Hinst inputOptions.
  assert (opt_get inputOptions "headers" = custom) as Hget.
  { subst inputOptions. unfold Request.command_options, opt_get. simpl.
    rewrite obj_lookup_assign by done. by rewrite Hcustom. }
  assert (call_level_headers inputOptions = spread custom) as Hcall.
  { unfold call_level_headers.
    replace (VObj (spread inputOptions)) with inputOptions by done.
    by rewrite Hget. }
  assert (obj_lookup "Content-Type" (spread custom) = None →
          obj_lookup "Content-Type" (outgoing_headers this inputOptions)
          = (v ← obj_lookup "Content-Type" (instance_headers this);
             if truthy v then Some v else None)) as Hct.
  { intros Hnone. unfold outgoing_headers.
    rewrite strip_content_type_lookup, decide_True by done.
    rewrite merged_headers_lookup by (by rewrite ?Hcall).
    rewrite Hcall, Hnone.
    destruct (obj_lookup "Content-Type" (instance_headers this)); [done|].
    by rewrite decide_False. }
  split; [done|]. split; [apply ky_call_headers|].
  do 3 (split; [done|]).
  intros ->. split; [by rewrite Hcall|].
  intros Hnone. apply obj_lookup_None. rewrite Hct by done.
  by rewrite Hnone.
Qed.

Lemma command_headers_replace_default_witness :
  call_level_headers
    (Request.command_options
       (Request.objectToURLSearchParams (VObj [("to", VStr "x")]))
       (VObj [("headers", VObj [("X-Foo", VStr "1")])]))
  = [("X-Foo", VStr "1")].
Proof.
  refine (proj1 (proj2 (proj2 (proj2
    (command_headers_replace_default (H := Lab.collaborators Lab.ok_reply)
       (Lab.this (VObj [])) "/v3/messages" (VObj [("to", VStr "x")])
       (VObj [("headers", VObj [("X-Foo", VStr "1")])])
       (VObj [("X-Foo", VStr "1")]) _ eq_refl _ _))))); compute_done.
Defined.

(** Against the last part of the claim as first stated: with a [Content-Type]
    among the instance default headers, [post(url, data, {headers: {'X-Foo':
    '1'}})] still sends a [Content-Type], the instance's. *)
Lemma post_custom_headers_keeps_instance_content_type :
  let this := Lab.this (VObj [("Content-Type", VStr "application/json")]) in
  let inputOptions :=
    Request.command_options
      (Request.objectToURLSearchParams (VObj [("to", VStr "x")]))
      (VObj [("headers", VObj [("X-Foo", VStr "1")])]) in
  call_level_headers inputOptions = [("X-Foo", VStr "1")]
  ∧ obj_lookup "headers"
      (sent_options (H := Lab.collaborators Lab.ok_reply)
         this "post" "/v3/messages" inputOptions)
    = Some (VObj [("Authorization", VStr "Basic YXBpOmtleS0x");
                  ("Content-Type", VStr "application/json");
                  ("X-Foo", VStr "1")])
  ∧ obj_lookup "Content-Type"
      (outgoing_headers (H := Lab.collaborators Lab.ok_reply) this inputOptions)
    = Some (VStr "application/json").
Proof. repeat split. Qed.

(** ** Query dispatch *)

Example query_one_parameter :
  sent_options (H := Lab.collaborators Lab.ok_reply) (Lab.this (VObj []))
    "get" "/v3/domains"
    (Request.query_options (VObj [("a", VStr "1")]) VUndefined)
  = [("method", VStr "GET");
     ("headers", VObj [("Authorization", VStr "Basic YXBpOmtleS0x")]);
     ("throwHttpErrors", VBool false);
     ("timeout", VNum 60000);
     ("searchParams", VObj [("a", VStr "1")])].
Proof. reflexivity. Qed.

Example query_empty_object :
  sent_options (H := Lab.collaborators Lab.ok_reply) (Lab.this (VObj []))
    "get" "/v3/domains" (Request.query_options (VObj []) VUndefined)
  = [("method", VStr "GET");
     ("headers", VObj [("Authorization", VStr "Basic YXBpOmtleS0x")]);
     ("throwHttpErrors", VBool false);
     ("timeout", VNum 60000);
     ("query", VObj [])].
Proof. reflexivity. Qed.

Section QueryDispatch.
Context `{Collaborators}.

Lemma query_options_lookup_query q options :
  NoDup (spread options).*1 →
  obj_lookup "query" (spread (Request.query_options q options))
  = Some (default q (obj_lookup "query" (spread options))).
Proof.
  intros Hnd. unfold Request.query_options. simpl.
  rewrite obj_lookup_assign by done.
  by destruct (obj_lookup "query" (spread options)).
Qed.

Lemma query_options_lookup_other k q options :
  NoDup (spread options).*1 → k ≠ "query" →
  obj_lookup k (spread (Request.query_options q options))
  = obj_lookup k (spread options).
Proof.
  intros Hnd Hk. unfold Request.query_options. simpl.
  rewrite obj_lookup_assign by done.
  destruct (obj_lookup k (spread options)); [done|]. cbn [obj_lookup].
  destruct (String.eqb_spec "query" k); [congruence | done].
Qed.

Lemma query_options_NoDup q options :
  NoDup (spread (Request.query_options q options)).*1.
Proof.
  unfold Request.query_options. simpl. apply obj_assign_NoDup. compute_done.
Qed.

Lemma move_query_NoDup options :
  NoDup options.*1 → NoDup (Request.move_query options).*1.
Proof.
  intros Hnd. unfold Request.move_query. case_match; [|done].
  by apply obj_delete_NoDup, obj_set_NoDup.
Qed.

(** Reading a key of the options handed to [ky] that the literal of lines
    97-103 does not set itself. *)
Lemma sent_options_lookup_params this method url inputOptions k :
  NoDup (spread inputOptions).*1 →
  k ∉ ["method"; "headers"; "throwHttpErrors"; "timeout"] →
  obj_lookup k (sent_options this method url inputOptions)
  = obj_lookup k (Request.move_query (obj_delete "headers" (spread inputOptions))).
Proof.
  intros Hnd Hk. unfold sent_options, Request.ky_call. simpl.
  rewrite obj_lookup_assign by by apply move_query_NoDup, obj_delete_NoDup.
  case_match; [done|]. by apply obj_lookup_None.
Qed.

End QueryDispatch.

(** C5, as the code has it. The query in effect is the [query] argument,
    unless the options carry a [query] key of their own, which then takes its
    place. If it is truthy and has an own property name, the transport gets
    it as [searchParams] and gets no [query] key; otherwise the transport
    gets the [query] key as it is and no [searchParams] other than one the
    caller put into the options. For an object in effect, having an own
    property name means having an entry. [get], [head] and [options] are
    [query] with their verb. *)
Theorem query_dispatch `{Collaborators} (this : This.t) (method url : string)
    (q options : value) :
  NoDup (spread options).*1 →
  let effective := default q (obj_lookup "query" (spread options)) in
  let sent := sent_options this method url (Request.query_options q options) in
  (Request.query this method url q options
     = Request.request this method url (Request.query_options q options)
   ∧ Request.get this url q options = Request.query this "get" url q options
   ∧ Request.head this url q options = Request.query this "head" url q options
   ∧ Request.options this url q options = Request.query this "options" url q options)
  ∧ (truthy effective = true → own_property_names effective ≠ [] →
       obj_lookup "searchParams" sent = Some effective
       ∧ obj_lookup "query" sent = None)
  ∧ (truthy effective = false ∨ own_property_names effective = [] →
       obj_lookup "searchParams" sent = obj_lookup "searchParams" (spread options)
       ∧ obj_lookup "query" sent = Some effective)
  ∧ (∀ props, effective = VObj props →
       truthy effective = true
       ∧ (own_property_names effective = [] ↔ props = [])).
Proof.
  intros Hnd effective sent.
  split; [done|].
  assert (∀ k, k ∉ ["method"; "headers"; "throwHttpErrors"; "timeout"] →
            obj_lookup k sent
            = obj_lookup k (Request.move_query
                (obj_delete "headers" (spread (Request.query_options q options)))))
    as Hsent.
  { intros k Hk. by apply sent_options_lookup_params; [apply query_options_NoDup|]. }
  set (options1 := obj_delete "headers" (spread (Request.query_options q options))) in *.
  assert (obj_lookup "query" options1 = Some effective) as Hq.
  { subst options1. rewrite obj_lookup_delete, decide_False by done.
    by apply query_options_lookup_query. }
  assert (obj_lookup "searchParams" options1
          = obj_lookup "searchParams" (spread options)) as Hs.
  { subst options1. rewrite obj_lookup_delete, decide_False by done.
    by apply query_options_lookup_other. }
  assert (opt_get (VObj options1) "query" = effective) as Hget.
  { unfold opt_get. simpl. by rewrite Hq. }
  split; [|split].
  - intros Ht Hn. rewrite !Hsent by compute_done.
    unfold Request.move_query. rewrite Hget, Ht.
    destruct (own_property_names effective) as [|n ns] eqn:Hnames; [done|].
    simpl. rewrite !obj_lookup_delete, obj_lookup_set.
    by rewrite decide_False, decide_True, decide_True.
  - intros Hno. rewrite !Hsent by compute_done.
    unfold Request.move_query. rewrite Hget.
    assert (truthy effective
            && (0 <? length (own_property_names effective))%nat = false) as ->.
    { destruct Hno as [-> | ->]; [done | by rewrite andb_false_r]. }
    by rewrite Hq, Hs.
  - intros props ->. split; [done|]. unfold own_property_names. simpl.
    rewrite app_nil_r. split; [apply fmap_nil_inv | by intros ->].
Qed.

Lemma query_dispatch_witness :
  obj_lookup "searchParams"
    (sent_options (H := Lab.collaborators Lab.ok_reply) (Lab.this (VObj []))
       "get" "/v3/domains"
       (Request.query_options (VObj [("a", VStr "1")]) VUndefined))
  = Some (VObj [("a", VStr "1")])
  ∧ obj_lookup "query"
      (sent_options (H := Lab.collaborators Lab.ok_reply) (Lab.this (VObj []))
         "get" "/v3/domains"
         (Request.query_options (VObj [("a", VStr "1")]) VUndefined))
    = None.
Proof.
  refine (proj1 (proj2
    (query_dispatch (H := Lab.collaborators Lab.ok_reply) (Lab.this (VObj []))
       "get" "/v3/domains" (VObj [("a", VStr "1")]) VUndefined _))
    eq_refl _).
  - compute_done.
  - discriminate.
Defined.

(** Against the claim as first stated: a [query] key in the options replaces
    the query argument, so a query mapping with one key is not passed on when
    the options say [{query: {}}]; and with an empty query mapping the
    transport still gets the [searchParams] the caller put into the options. *)
Lemma query_overridden_by_options :
  let sent (q options : value) :=
    sent_options (H := Lab.collaborators Lab.ok_reply) (Lab.this (VObj []))
      "get" "/v3/domains" (Request.query_options q options) in
  own_entries (VObj [("a", VStr "1")]) ≠ []
  ∧ obj_lookup "searchParams"
      (sent (VObj [("a", VStr "1")]) (VObj [("query", VObj [])])) = None
  ∧ obj_lookup "query"
      (sent (VObj [("a", VStr "1")]) (VObj [("query", VObj [])]))
    = Some (VObj [])
  ∧ own_entries (VObj []) = []
  ∧ obj_lookup "searchParams"
      (sent (VObj []) (VObj [("searchParams", VObj [("page", VStr "2")])]))
    = Some (VObj [("page", VStr "2")]).
Proof. repeat split. discriminate. Qed.

(** ** Attachment specs *)

Section AttachmentSpecs.
Implicit Types (item v : value) (key : string) (acc : list Field).

Lemma get_prop_Normal v k :
  nullish v = false → get_prop v k = Normal (index v k).
Proof. unfold get_prop, index, opt_get. by intros ->. Qed.

Lemma typeof_not_object_nullish item :
  typeof item ≠ "object" → item ≠ VUndefined → nullish item = false.
Proof. by destruct item. Qed.

Lemma isStream_not_object item :
  typeof item ≠ "object" → isStream item = Normal false.
Proof.
  intros Hty. unfold isStream.
  by destruct (String.eqb_spec (typeof item) "object").
Qed.

Lemma isStream_true_object item :
  isStream item = Normal true → typeof item = "object" ∧ nullish item = false.
Proof.
  unfold isStream. destruct (String.eqb_spec (typeof item) "object") as [Hty|];
    [|done].
  by destruct item.
Qed.

Lemma isStream_total item :
  nullish item = false → ∃ b, isStream item = Normal b.
Proof.
  intros Hn. unfold isStream. case_match; [|by eexists].
  rewrite get_prop_Normal by done. by eexists.
Qed.

Lemma falsy_own_entries v : truthy v = false → own_entries v = [].
Proof.
  destruct v as [| | | | |s| | | | | |]; try done.
  by destruct s.
Qed.

Lemma spread_js_and k v :
  spread (js_and v (VObj [(k, v)])) = if truthy v then [(k, v)] else [].
Proof.
  unfold js_and, spread. destruct (truthy v) eqn:Hv; [done|].
  by apply falsy_own_entries.
Qed.

Lemma getAttachmentOptions_stream item :
  isStream item = Normal true → getAttachmentOptions item = Normal (VObj []).
Proof.
  intros Hs. destruct (isStream_true_object _ Hs) as [Hty _].
  unfold getAttachmentOptions. by rewrite Hty, Hs.
Qed.

Lemma getAttachmentOptions_not_object item :
  typeof item ≠ "object" → getAttachmentOptions item = Normal (VObj []).
Proof.
  intros Hty. unfold getAttachmentOptions.
  by destruct (String.eqb_spec (typeof item) "object").
Qed.

Lemma getAttachmentOptions_object item :
  typeof item = "object" → nullish item = false →
  isStream item = Normal false →
  getAttachmentOptions item = Normal (VObj (inferred item)).
Proof.
  intros Hty Hn Hs. unfold getAttachmentOptions.
  rewrite Hty, Hs. simpl. rewrite !get_prop_Normal by done. simpl.
  rewrite !spread_js_and. unfold inferred.
  destruct (truthy (index item "filename"));
    destruct (truthy (index item "contentType"));
    destruct (truthy (index item "knownLength")); reflexivity.
Qed.

Lemma append_attachment_stream key acc item :
  isStream item = Normal true →
  Request.append_attachment key acc item
  = Normal (acc ++ [mkField key item (Some (VObj []))]).
Proof.
  intros Hs. unfold Request.append_attachment.
  by rewrite Hs, (getAttachmentOptions_stream _ Hs).
Qed.

Lemma append_attachment_object key acc item :
  typeof item = "object" → nullish item = false →
  isStream item = Normal false →
  Request.append_attachment key acc item
  = Normal (acc ++ [mkField key (index item "data") (Some (VObj (inferred item)))]).
Proof.
  intros Hty Hn Hs. unfold Request.append_attachment.
  rewrite Hs. simpl. rewrite get_prop_Normal by done. simpl.
  by rewrite getAttachmentOptions_object.
Qed.

Lemma append_attachment_not_object key acc item :
  typeof item ≠ "object" → item ≠ VUndefined →
  Request.append_attachment key acc item
  = Normal (acc ++ [mkField key (index item "data") (Some (VObj []))]).
Proof.
  intros Hty Hu. unfold Request.append_attachment.
  rewrite isStream_not_object by done. simpl.
  rewrite get_prop_Normal by by apply typeof_not_object_nullish.
  simpl. by rewrite getAttachmentOptions_not_object.
Qed.

Lemma append_attachment_nullish key acc item :
  nullish item = true → ∃ e, Request.append_attachment key acc item = Throw e.
Proof. destruct item; try done; intros _; by eexists. Qed.

(** A spec that is neither [null] nor [undefined] yields one field, named
    by the key. *)
Lemma append_attachment_total key acc item :
  nullish item = false →
  ∃ f, Request.append_attachment key acc item = Normal (acc ++ [f])
       ∧ Request.append_attachment key [] item = Normal [f]
       ∧ field_name f = key.
Proof.
  intros Hn. destruct (decide (typeof item = "object")) as [Hty|Hty].
  - destruct (isStream_total _ Hn) as [[] Hs].
    + eexists. rewrite !append_attachment_stream by done. by eauto.
    + eexists. rewrite !append_attachment_object by done. by eauto.
  - assert (item ≠ VUndefined) by (by intros ->).
    eexists. rewrite !append_attachment_not_object by done. by eauto.
Qed.

Lemma append_attachment_Normal key acc item fs :
  Request.append_attachment key acc item = Normal fs →
  nullish item = false.
Proof.
  intros Hfs. destruct (nullish item) eqn:Hn; [|done].
  destruct (append_attachment_nullish key acc item Hn) as [e He]. congruence.
Qed.

End AttachmentSpecs.

Example createFormData_buffer_spec :
  Request.createFormData
    (VObj [("attachment",
            VObj [("data", VStr "PNG"); ("contentType", VStr "image/png")])])
  = Normal (VFormData
      [mkField "attachment" (VStr "PNG")
         (Some (VObj [("filename", VStr "file");
                      ("contentType", VStr "image/png")]))]).
Proof. reflexivity. Qed.

Example createFormData_stream_spec :
  Request.createFormData (VObj [("attachment", VStream [EvEnd])])
  = Normal (VFormData
      [mkField "attachment" (VStream [EvEnd]) (Some (VObj []))]).
Proof. reflexivity. Qed.

(** C3, as the code has it. A spec for which [isStream] holds is appended
    unchanged with empty options. A spec that is an object and not a stream
    is appended as its [data] attribute, with options holding [filename] (the
    given one when truthy, the literal ['file'] otherwise), [contentType]
    only when truthy and [knownLength] only when truthy. A spec that is not
    an object (a string, a number) is appended as its [data] attribute with
    empty options. So [{attachment: {data: buf, contentType: 'image/png'}}]
    yields one field with filename ['file'] and contentType ['image/png']. *)
Theorem attachment_spec_field (key : string) (acc : list Field) (item : value) :
  (isStream item = Normal true →
     Request.append_attachment key acc item
     = Normal (acc ++ [mkField key item (Some (VObj []))]))
  ∧ (typeof item = "object" → nullish item = false →
     isStream item = Normal false →
     Request.append_attachment key acc item
     = Normal (acc ++ [mkField key (index item "data")
                         (Some (VObj (inferred item)))])
     ∧ obj_lookup "filename" (inferred item)
       = Some (if truthy (index item "filename")
               then index item "filename" else VStr "file")
     ∧ obj_lookup "contentType" (inferred item)
       = (if truthy (index item "contentType")
          then Some (index item "contentType") else None)
     ∧ obj_lookup "knownLength" (inferred item)
       = (if truthy (index item "knownLength")
          then Some (index item "knownLength") else None))
  ∧ (typeof item ≠ "object" → item ≠ VUndefined →
     Request.append_attachment key acc item
     = Normal (acc ++ [mkField key (index item "data") (Some (VObj []))]))
  ∧ (reserved key = true → truthy item = true → Array_isArray item = false →
     Request.createFormData (VObj [(key, item)])
     = fields ← Request.append_attachment key [] item; mret (VFormData fields))
  ∧ (∀ buf,
     Request.createFormData
       (VObj [("attachment",
               VObj [("data", buf); ("contentType", VStr "image/png")])])
     = Normal (VFormData
         [mkField "attachment" buf
            (Some (VObj [("filename", VStr "file");
                         ("contentType", VStr "image/png")]))])).
Proof.
  split; [apply append_attachment_stream|].
  split.
  { intros Hty Hn Hs. split; [by apply append_attachment_object|].
    unfold inferred.
    destruct (truthy (index item "contentType"));
      destruct (truthy (index item "knownLength")); by repeat split. }
  split; [apply append_attachment_not_object|].
  split; [|done].
  intros Hr Ht Ha. unfold Request.createFormData. simpl.
  unfold index at 1. unfold opt_get. simpl. rewrite String.eqb_refl. simpl.
  rewrite Ht. simpl. unfold Request.reducer.
  unfold reserved in Hr. rewrite Hr.
  unfold index, opt_get. simpl. rewrite String.eqb_refl. simpl. rewrite Ha.
  by destruct (Request.append_attachment key [] item).
Qed.

Lemma attachment_spec_field_witness :
  Request.append_attachment "attachment" []
    (VObj [("data", VStr "PNG"); ("knownLength", VNum 3)])
  = Normal [mkField "attachment" (VStr "PNG")
              (Some (VObj [("filename", VStr "file");
                           ("knownLength", VNum 3)]))].
Proof.
  exact (proj1 (proj1 (proj2
    (attachment_spec_field "attachment" []
       (VObj [("data", VStr "PNG"); ("knownLength", VNum 3)])))
    eq_refl eq_refl eq_refl)).
Defined.

(** Against the claim as first stated: a spec without a callable [pipe] whose
    [filename] is given but falsy gets the literal ['file'], not the given
    filename; and a spec that is not an object gets no [filename] at all. *)
Lemma attachment_filename_not_as_given :
  let item := VObj [("data", VStr "PNG"); ("filename", VStr EmptyString)] in
  isStream item = Normal false
  ∧ obj_lookup "filename" (own_entries item) = Some (VStr EmptyString)
  ∧ Request.createFormData (VObj [("attachment", item)])
    = Normal (VFormData
        [mkField "attachment" (VStr "PNG")
           (Some (VObj [("filename", VStr "file")]))])
  ∧ isStream (VStr "raw") = Normal false
  ∧ Request.createFormData (VObj [("attachment", VStr "raw")])
    = Normal (VFormData [mkField "attachment" VUndefined (Some (VObj []))]).
Proof. repeat split. Qed.

(** ** Multipart assembly *)

Section Multipart.
Implicit Types (data item v : value) (key k : string) (acc : list Field).

Lemma forEach_plain_append key items acc :
  forEach (λ acc item, mret (append acc key item None)) items acc
  = Normal (acc ++ ((λ item, mkField key item None) <$> items)).
Proof.
  revert acc. induction items as [|item items IH]; intros acc; simpl.
  - by rewrite app_nil_r.
  - change (forEach (λ acc item, mret (append acc key item None)) items
              (append acc key item None) = Normal (acc ++ mkField key item None
                 :: ((λ item, mkField key item None) <$> items))).
    rewrite IH. unfold append. by rewrite <- app_assoc.
Qed.

(** The fields appended for an array of specs: one per spec, in order. *)
Lemma forEach_attachments key items acc fs :
  forEach (Request.append_attachment key) items acc = Normal fs →
  ∃ fl, fs = acc ++ fl
        ∧ Forall2 (λ item f, Request.append_attachment key [] item = Normal [f]
                             ∧ field_name f = key) items fl.
Proof.
  revert acc. induction items as [|item items IH]; intros acc; simpl.
  - intros [= <-]. exists []. by rewrite app_nil_r.
  - destruct (Request.append_attachment key acc item) as [acc'|e] eqn:Hitem;
      [|done].
    simpl. intros Hrest.
    pose proof (append_attachment_Normal _ _ _ _ Hitem) as Hn.
    destruct (append_attachment_total key acc item Hn) as (f & Hf & Hf0 & Hname).
    rewrite Hf in Hitem. injection Hitem as <-.
    destruct (IH _ Hrest) as (fl & -> & Hfl).
    exists (f :: fl). split; [by rewrite <- app_assoc|].
    by constructor.
Qed.

Lemma forEach_attachments_total key items acc :
  Forall (λ item, nullish item = false) items →
  ∃ fs, forEach (Request.append_attachment key) items acc = Normal fs.
Proof.
  intros Hall. revert acc.
  induction Hall as [|item items Hn _ IH]; intros acc; simpl; [by eexists|].
  destruct (append_attachment_total key acc item Hn) as (f & -> & _).
  simpl. apply IH.
Qed.

(** What one key contributes: the fields it appends to an empty container. *)
Lemma reducer_contribution data acc key fs :
  Request.reducer data acc key = Normal fs →
  ∃ c, fs = acc ++ c
       ∧ Request.reducer data [] key = Normal c
       ∧ Forall (λ f, field_name f = key) c.
Proof.
  unfold Request.reducer.
  destruct (String.eqb key "attachment" || String.eqb key "inline").
  - destruct (Array_isArray (index data key)).
    + intros Hfs. destruct (forEach_attachments _ _ _ _ Hfs) as (fl & -> & Hfl).
      exists fl. split; [done|].
      assert (Forall (λ f, field_name f = key) fl) as Hnames.
      { clear Hfs. induction Hfl as [|???? [_ ?]]; by constructor. }
      split; [|done]. clear Hfs Hnames.
      assert (∀ acc0, forEach (Request.append_attachment key)
                (array_items (index data key)) acc0 = Normal (acc0 ++ fl)) as Hall.
      { induction Hfl as [|item f items fl [Hf Hname] _ IH]; intros acc0; simpl;
          [by rewrite app_nil_r|].
        pose proof (append_attachment_Normal _ _ _ _ Hf) as Hn.
        destruct (append_attachment_total key acc0 item Hn) as (f' & -> & Hf' & _).
        rewrite Hf in Hf'. injection Hf' as <-. simpl.
        rewrite IH. by rewrite <- app_assoc. }
      apply (Hall []).
    + intros Hfs.
      pose proof (append_attachment_Normal _ _ _ _ Hfs) as Hn.
      destruct (append_attachment_total key acc _ Hn) as (f & Hf & Hf0 & Hname).
      rewrite Hf in Hfs. injection Hfs as <-.
      exists [f]. split; [done|]. split; [done|]. by constructor.
  - destruct (Array_isArray (index data key)).
    + rewrite !forEach_plain_append. intros [= <-].
      eexists. split; [done|]. split; [done|].
      apply Forall_fmap. by apply Forall_true.
    + destruct (loose_neq_null (index data key)); intros [= <-].
      * exists [mkField key (index data key) None].
        split; [done|]. split; [done|]. by constructor.
      * exists []. by rewrite app_nil_r.
Qed.

Lemma forEach_reducer data keys acc fs :
  forEach (Request.reducer data) keys acc = Normal fs →
  ∃ cs, fs = acc ++ concat cs
        ∧ Forall2 (λ key c, Request.reducer data [] key = Normal c
                            ∧ Forall (λ f, field_name f = key) c) keys cs.
Proof.
  revert acc. induction keys as [|key keys IH]; intros acc; simpl.
  - intros [= <-]. exists []. by rewrite app_nil_r.
  - destruct (Request.reducer data acc key) as [acc'|e] eqn:Hkey; [|done].
    simpl. intros Hrest.
    destruct (reducer_contribution _ _ _ _ Hkey) as (c & -> & Hc & Hnames).
    destruct (IH _ Hrest) as (cs & -> & Hcs).
    exists (c :: cs). split; [by rewrite <- app_assoc|]. by constructor.
Qed.

Lemma named_all k (c : list Field) :
  Forall (λ f, field_name f = k) c → named k c = c.
Proof.
  unfold named. induction 1 as [|f c Hf _ IH]; [done|].
  by rewrite filter_cons, decide_True, IH.
Qed.

Lemma named_none k k' (c : list Field) :
  k ≠ k' → Forall (λ f, field_name f = k') c → named k c = [].
Proof.
  unfold named. intros Hne. induction 1 as [|f c Hf _ IH]; [done|].
  rewrite filter_cons, decide_False, IH by congruence. done.
Qed.

Lemma named_app k (c d : list Field) :
  named k (c ++ d) = named k c ++ named k d.
Proof. apply filter_app. Qed.

(** With each key occurring once, the fields named [k] in the result are
    the contribution of [k]. *)
Lemma named_concat k keys (cs : list (list Field)) (P : string → list Field → Prop) :
  NoDup keys →
  Forall2 (λ key c, P key c ∧ Forall (λ f, field_name f = key) c) keys cs →
  ((k ∉ keys) ∧ named k (concat cs) = [])
  ∨ (k ∈ keys ∧ P k (named k (concat cs))).
Proof.
  intros Hnd Hcs. induction Hcs as [|key c keys cs [HP Hnames] _ IH]; simpl.
  - left. split; [apply not_elem_of_nil | done].
  - apply NoDup_cons in Hnd as [Hnotin Hnd]. rewrite named_app.
    destruct (IH Hnd) as [[Hk Hnil]|[Hk HPk]].
    + rewrite Hnil, app_nil_r. destruct (decide (k = key)) as [->|Hne].
      * right. split; [left|]. by rewrite named_all.
      * left. split; [by apply not_elem_of_cons|]. by eapply named_none.
    + assert (k ≠ key) as Hne by (by intros ->).
      right. split; [by right|]. by rewrite (named_none k key).
Qed.

End Multipart.

Lemma own_key_lookup (data : value) (k : string) :
  k ∈ (own_entries data).*1 → ∃ v, obj_lookup k (own_entries data) = Some v.
Proof.
  intros Hk. destruct (obj_lookup k (own_entries data)) as [v|] eqn:Hl;
    [by eexists|].
  by apply obj_lookup_None in Hl.
Qed.

Lemma lookup_own_key (data : value) (k : string) (v : value) :
  obj_lookup k (own_entries data) = Some v → k ∈ (own_entries data).*1.
Proof.
  intros Hl. apply obj_lookup_Some_elem in Hl.
  apply list_elem_of_fmap. by exists (k, v).
Qed.

Section CreateFormData.
Implicit Types (data item v : value) (key k : string) (fields : list Field).

Lemma index_own data k v :
  nullish data = false →
  obj_lookup k (own_entries data) = Some v → index data k = v.
Proof. unfold index, opt_get. by intros -> ->. Qed.

Lemma kept_keys_elem data k :
  k ∈ kept_keys data ↔
  k ∈ (own_entries data).*1 ∧ truthy (index data k) = true.
Proof.
  unfold kept_keys. rewrite !list_elem_of_In, filter_In. done.
Qed.

Lemma kept_keys_NoDup data :
  NoDup (own_entries data).*1 → NoDup (kept_keys data).
Proof. rewrite !NoDup_ListNoDup. apply List.NoDup_filter. Qed.

Lemma createFormData_inv data fields :
  Request.createFormData data = Normal (VFormData fields) →
  nullish data = false
  ∧ forEach (Request.reducer data) (kept_keys data) [] = Normal fields.
Proof.
  unfold Request.createFormData, Object_keys.
  destruct (nullish data); [done|]. simpl. fold (kept_keys data).
  destruct (forEach (Request.reducer data) (kept_keys data) []); [|done].
  simpl. by intros [= ->].
Qed.

(** The fields named [k] in the result of [createFormData]: none when [k]
    is not a key with a truthy value, the contribution of [k] when it is. *)
Lemma createFormData_named data fields k :
  NoDup (own_entries data).*1 →
  Request.createFormData data = Normal (VFormData fields) →
  ((k ∉ kept_keys data) ∧ named k fields = [])
  ∨ (k ∈ kept_keys data
     ∧ Request.reducer data [] k = Normal (named k fields)).
Proof.
  intros Hnd Hfd. apply createFormData_inv in Hfd as [_ Hfold].
  apply forEach_reducer in Hfold as (cs & -> & Hcs). simpl.
  apply (named_concat k (kept_keys data) cs
           (λ key c, Request.reducer data [] key = Normal c)); [|done].
  by apply kept_keys_NoDup.
Qed.

(** The contribution of a key whose value is an array. *)
Lemma reducer_array data k items c :
  index data k = VArr items →
  Request.reducer data [] k = Normal c →
  (reserved k = false → c = (λ item, mkField k item None) <$> items)
  ∧ (reserved k = true →
       Forall2 (λ item f, Request.append_attachment k [] item = Normal [f]
                          ∧ field_name f = k) items c).
Proof.
  intros Hidx. unfold Request.reducer, reserved. rewrite Hidx. simpl.
  destruct (String.eqb k "attachment" || String.eqb k "inline").
  - intros Hc. split; [done|]. intros _.
    by apply forEach_attachments in Hc as (fl & -> & Hfl).
  - rewrite forEach_plain_append. intros [= <-]. by split.
Qed.

(** The contribution of a key whose value is truthy is empty only for the
    empty array. *)
Lemma reducer_truthy_nil data k c :
  truthy (index data k) = true →
  Request.reducer data [] k = Normal c →
  c = [] ↔ index data k = VArr [].
Proof.
  intros Ht Hc.
  assert (nullish (index data k) = false) as Hn
    by (by destruct (index data k)).
  destruct (Array_isArray (index data k)) eqn:Harr.
  - destruct (index data k) as [| | | | | | |items| | | |] eqn:Hidx; try done.
    destruct (reducer_array _ _ _ _ Hidx Hc) as [Hplain Hres].
    destruct (reserved k).
    + specialize (Hres eq_refl). split.
      * intros ->. apply Forall2_nil_inv_r in Hres. by subst.
      * intros [= ->]. by apply Forall2_nil_inv_l in Hres.
    + rewrite (Hplain eq_refl). split.
      * intros Hnil. apply fmap_nil_inv in Hnil. by subst.
      * by intros [= ->].
  - assert (∃ f, c = [f]) as [f ->].
    { revert Hc. unfold Request.reducer. rewrite Harr.
      destruct (String.eqb k "attachment" || String.eqb k "inline").
      - destruct (append_attachment_total k [] _ Hn) as (f & -> & _).
        intros [= <-]. by eexists.
      - unfold loose_neq_null. rewrite Hn. simpl. intros [= <-]. by eexists. }
    split; [done|]. intros Hidx. by rewrite Hidx in Harr.
Qed.

(** [createFormData] returns unless [data] is [null] or [undefined] or a
    spec in an array under a reserved key is. *)
Lemma createFormData_returns data :
  nullish data = false →
  specs_present data →
  ∃ fields, Request.createFormData data = Normal (VFormData fields).
Proof.
  intros Hn Hspecs. unfold Request.createFormData, Object_keys.
  rewrite Hn. simpl. fold (kept_keys data).
  assert (∀ keys acc, Forall (λ k, truthy (index data k) = true) keys →
            ∃ fs, forEach (Request.reducer data) keys acc = Normal fs) as Hall.
  { induction keys as [|key keys IH]; intros acc Hkeys; simpl; [by eexists|].
    apply Forall_cons in Hkeys as [Ht Hkeys].
    assert (∃ acc', Request.reducer data acc key = Normal acc') as [acc' ->].
    { unfold Request.reducer. fold (reserved key).
      destruct (reserved key) eqn:Hr.
      - destruct (Array_isArray (index data key)).
        + apply forEach_attachments_total, Forall_forall.
          intros item Hitem. by apply (Hspecs key).
        + destruct (append_attachment_total key acc (index data key))
            as (f & -> & _); [|by eexists].
          by destruct (index data key).
      - destruct (Array_isArray (index data key)).
        + rewrite forEach_plain_append. by eexists.
        + destruct (loose_neq_null (index data key)); by eexists. }
    simpl. by apply IH. }
  destruct (Hall (kept_keys data) []) as [fs ->]; [|by eexists].
  apply Forall_forall. intros k Hk. by apply kept_keys_elem in Hk as [_ ?].
Qed.

(** Conversely, it returns only then. *)
Lemma createFormData_returned data fields :
  Request.createFormData data = Normal (VFormData fields) →
  nullish data = false ∧ specs_present data.
Proof.
  intros Hfd. apply createFormData_inv in Hfd as [Hn Hfold].
  split; [done|]. intros k item Hr Hitem.
  apply forEach_reducer in Hfold as (cs & _ & Hcs).
  destruct (index data k) as [| | | | | | |items| | | |] eqn:Hidx;
    try by apply elem_of_nil in Hitem.
  simpl in Hitem.
  assert (k ∈ kept_keys data) as Hk.
  { apply kept_keys_elem. rewrite Hidx. split; [|done].
    revert Hidx. unfold index, opt_get. rewrite Hn.
    destruct (obj_lookup k (own_entries data)) as [v|] eqn:Hl.
    - intros _. by eapply lookup_own_key.
    - simpl. unfold inherent. destruct data; repeat case_match; done. }
  apply list_elem_of_lookup in Hk as [i Hi].
  destruct (Forall2_lookup_l _ _ _ _ _ Hcs Hi) as (c & _ & Hc & _).
  destruct (reducer_array _ _ _ _ Hidx Hc) as [_ Hres].
  specialize (Hres Hr).
  apply list_elem_of_lookup in Hitem as [j Hj].
  destruct (Forall2_lookup_l _ _ _ _ _ Hres Hj) as (f & _ & Hf & _).
  by eapply append_attachment_Normal.
Qed.

End CreateFormData.

Example createFormData_tags :
  Request.createFormData
    (VObj [("tags", VArr [VStr "a"; VStr "b"]); ("empty", VStr EmptyString); ("skip", VNull)])
  = Normal (VFormData [mkField "tags" (VStr "a") None;
                       mkField "tags" (VStr "b") None]).
Proof. reflexivity. Qed.

(** A sufficient check for [specs_present], entry by entry. *)
Lemma specs_present_entries (data : value) :
  Forall (λ kv, Forall (λ item, nullish item = false) (array_items kv.2))
    (own_entries data) →
  specs_present data.
Proof.
  intros Hall k item _ Hitem. unfold index, opt_get in Hitem.
  destruct (nullish data); [by apply elem_of_nil in Hitem|].
  destruct (obj_lookup k (own_entries data)) as [v|] eqn:Hl; simpl in Hitem.
  - apply obj_lookup_Some_elem in Hl.
    rewrite Forall_forall in Hall. specialize (Hall _ Hl).
    rewrite Forall_forall in Hall. by apply Hall.
  - exfalso. unfold inherent in Hitem.
    destruct data; repeat case_match; by apply elem_of_nil in Hitem.
Qed.

(** C4, as the code has it. For an input whose keys occur once each, that is
    not [null] or [undefined] and has no [null] or [undefined] spec in an
    array under a reserved key, [createFormData] returns a body in which no
    field is named by a key with a falsy value, every field is named by a key
    with a truthy value, and a key with a truthy value names at least one
    field unless its value is the empty array, which contributes none. On
    [{tags: ['a','b'], empty: '', skip: null}] the body is the two fields
    [tags = 'a'], [tags = 'b']. *)
Theorem falsy_values_are_dropped (data : value) :
  NoDup (own_entries data).*1 →
  nullish data = false →
  specs_present data →
  ∃ fields,
    Request.createFormData data = Normal (VFormData fields)
    ∧ (∀ k v, obj_lookup k (own_entries data) = Some v → truthy v = false →
              named k fields = [])
    ∧ (∀ f, f ∈ fields →
            ∃ v, obj_lookup (field_name f) (own_entries data) = Some v
                 ∧ truthy v = true)
    ∧ (∀ k v, obj_lookup k (own_entries data) = Some v → truthy v = true →
              (named k fields = [] ↔ v = VArr []))
    ∧ Request.createFormData
        (VObj [("tags", VArr [VStr "a"; VStr "b"]); ("empty", VStr EmptyString);
               ("skip", VNull)])
      = Normal (VFormData [mkField "tags" (VStr "a") None;
                           mkField "tags" (VStr "b") None]).
Proof.
  intros Hnd Hn Hspecs.
  destruct (createFormData_returns data Hn Hspecs) as [fields Hfd].
  exists fields. split; [done|].
  split; [|split; [|split; [|done]]].
  - intros k v Hl Hv.
    destruct (createFormData_named data fields k Hnd Hfd) as [[_ ?]|[Hk _]];
      [done|].
    apply kept_keys_elem in Hk as [_ Ht].
    rewrite (index_own _ _ _ Hn Hl) in Ht. congruence.
  - intros f Hf. set (k := field_name f).
    assert (f ∈ named k fields) as Hnamed by (by apply list_elem_of_filter).
    destruct (createFormData_named data fields k Hnd Hfd) as [[_ Hnil]|[Hk _]].
    + rewrite Hnil in Hnamed. by apply elem_of_nil in Hnamed.
    + apply kept_keys_elem in Hk as [Hkey Ht].
      destruct (own_key_lookup _ _ Hkey) as [v Hl]. exists v. split; [done|].
      by rewrite (index_own _ _ _ Hn Hl) in Ht.
  - intros k v Hl Hv.
    pose proof (index_own _ _ _ Hn Hl) as Hidx.
    destruct (createFormData_named data fields k Hnd Hfd) as [[Hk _]|[_ Hc]].
    + exfalso. apply Hk. apply kept_keys_elem.
      split; [by eapply lookup_own_key | by rewrite Hidx].
    + rewrite <- Hidx. apply (reducer_truthy_nil data k); [by rewrite Hidx | done].
Qed.

Lemma falsy_values_are_dropped_witness :
  ∃ fields,
    Request.createFormData
      (VObj [("to", VStr "a@b.c"); ("cc", VStr EmptyString); ("o:testmode", VBool false)])
    = Normal (VFormData fields)
    ∧ named "cc" fields = [].
Proof.
  destruct (falsy_values_are_dropped
              (VObj [("to", VStr "a@b.c"); ("cc", VStr EmptyString);
                     ("o:testmode", VBool false)]))
    as (fields & Hfd & Hfalsy & _).
  - compute_done.
  - reflexivity.
  - apply specs_present_entries. compute_done.
  - exists fields. split; [done|]. by apply (Hfalsy "cc" (VStr EmptyString)).
Defined.

(** Against the second half of the claim as first stated: an empty array is
    truthy, and a key holding one contributes no field. *)
Lemma empty_array_contributes_nothing :
  truthy (VArr []) = true
  ∧ Request.createFormData (VObj [("tags", VArr []); ("to", VStr "a@b.c")])
    = Normal (VFormData [mkField "to" (VStr "a@b.c") None])
  ∧ named "tags" [mkField "to" (VStr "a@b.c") None] = [].
Proof. repeat split. Qed.

Example createFormData_two_attachments :
  Request.createFormData
    (VObj [("attachment",
            VArr [VObj [("data", VStr "A"); ("filename", VStr "a.txt")];
                  VStream [EvEnd]]);
           ("o:tag", VArr [VStr "x"; VStr "y"; VStr "z"])])
  = Normal (VFormData
      [mkField "attachment" (VStr "A") (Some (VObj [("filename", VStr "a.txt")]));
       mkField "attachment" (VStream [EvEnd]) (Some (VObj []));
       mkField "o:tag" (VStr "x") None;
       mkField "o:tag" (VStr "y") None;
       mkField "o:tag" (VStr "z") None]).
Proof. reflexivity. Qed.

(** C7. For an input whose keys occur once each, that is not [null] or
    [undefined] and has no [null] or [undefined] spec in an array under a
    reserved key, [createFormData] returns a body in which the fields named
    by a key whose value is an array are, in array order: one field per
    element holding that element, for a key that is not reserved; one field
    per spec, the one [append_attachment] makes of that spec, for
    [attachment] and [inline]. *)
Theorem arrays_repeat_the_field_name (data : value) (k : string)
    (items : list value) :
  NoDup (own_entries data).*1 →
  nullish data = false →
  specs_present data →
  obj_lookup k (own_entries data) = Some (VArr items) →
  ∃ fields,
    Request.createFormData data = Normal (VFormData fields)
    ∧ length (named k fields) = length items
    ∧ (reserved k = false →
         named k fields = (λ item, mkField k item None) <$> items)
    ∧ (reserved k = true →
         Forall2 (λ item f,
                    Request.append_attachment k [] item = Normal [f]
                    ∧ field_name f = k)
           items (named k fields)).
Proof.
  intros Hnd Hn Hspecs Hl.
  destruct (createFormData_returns data Hn Hspecs) as [fields Hfd].
  exists fields. split; [done|].
  pose proof (index_own _ _ _ Hn Hl) as Hidx.
  destruct (createFormData_named data fields k Hnd Hfd) as [[Hk _]|[_ Hc]].
  { exfalso. apply Hk. apply kept_keys_elem.
    split; [by eapply lookup_own_key | by rewrite Hidx]. }
  destruct (reducer_array _ _ _ _ Hidx Hc) as [Hplain Hres].
  split; [|done].
  destruct (reserved k).
  - symmetry. by eapply Forall2_length, Hres.
  - by rewrite (Hplain eq_refl), length_fmap.
Qed.

Lemma arrays_repeat_the_field_name_witness :
  ∃ fields,
    Request.createFormData
      (VObj [("to", VArr [VStr "a@b.c"; VStr "d@e.f"]); ("text", VStr "hi")])
    = Normal (VFormData fields)
    ∧ named "to" fields
      = [mkField "to" (VStr "a@b.c") None; mkField "to" (VStr "d@e.f") None].
Proof.
  destruct (arrays_repeat_the_field_name
              (VObj [("to", VArr [VStr "a@b.c"; VStr "d@e.f"]);
                     ("text", VStr "hi")])
              "to" [VStr "a@b.c"; VStr "d@e.f"])
    as (fields & Hfd & _ & Hplain & _).
  - compute_done.
  - reflexivity.
  - apply specs_present_entries. compute_done.
  - reflexivity.
  - exists fields. split; [done|]. by apply Hplain.
Defined.

(** ** What [request] writes to *)

Module StoreFacts.
Import Store.

Section Commands.
Implicit Types (h : heap) (l : loc) (o : object).

Lemma wp_ret {A : Type} (a : A) (Q : A → heap → Prop) h :
  Q a h → wp (mret a) Q h.
Proof. done. Qed.

Lemma wp_bind {A B : Type} (m : M A) (f : A → M B) (Q : B → heap → Prop) h :
  wp m (λ a h', wp (f a) Q h') h → wp (m ≫= f) Q h.
Proof. done. Qed.

Lemma wp_read {A : Type} (f : heap → A) (Q : A → heap → Prop) h :
  Q (f h) h → wp (read f) Q h.
Proof. done. Qed.

Lemma wp_alloc o (Q : loc → heap → Prop) h :
  (∀ l, h !! l = None → Q l (<[l := o]> h)) → wp (alloc o) Q h.
Proof.
  intros HQ. unfold wp, alloc. simpl. apply HQ.
  apply not_elem_of_dom, is_fresh.
Qed.

Lemma wp_update l g (Q : unit → heap → Prop) h :
  Q tt (alter (λ o, mkObject (kind_of o) (g (props_of o))) l h) →
  wp (update l g) Q h.
Proof. done. Qed.

Lemma wp_spread_new v (Q : loc → heap → Prop) h :
  (∀ l, h !! l = None → Q l (<[l := mkObject Plain (own_entries h v)]> h)) →
  wp (spread_new v) Q h.
Proof.
  intros HQ. unfold spread_new. apply wp_bind, wp_read. by apply wp_alloc.
Qed.

Lemma wp_if {A : Type} (b : bool) (m1 m2 : M A) (Q : A → heap → Prop) h :
  (b = true → wp m1 Q h) → (b = false → wp m2 Q h) →
  wp (if b then m1 else m2) Q h.
Proof. destruct b; auto. Qed.

End Commands.

Section Preservation.
Implicit Types (h old : heap) (l : loc) (o : object).

Lemma preserved_refl h : preserved h h.
Proof. by intros l o. Qed.

Lemma preserved_fresh old h l :
  preserved old h → h !! l = None → old !! l = None.
Proof.
  intros Hp Hl. destruct (old !! l) as [o|] eqn:Hlo; [|done].
  apply Hp in Hlo. congruence.
Qed.

Lemma preserved_insert old h l o :
  preserved old h → h !! l = None → preserved old (<[l := o]> h).
Proof.
  intros Hp Hl l' o' Hl'. apply Hp in Hl'.
  rewrite lookup_insert_ne; [done|]. intros ->. congruence.
Qed.

Lemma preserved_alter old h l (g : object → object) :
  preserved old h → old !! l = None → preserved old (alter g l h).
Proof.
  intros Hp Hl l' o' Hl'. rewrite lookup_alter_ne; [by apply Hp|].
  intros ->. congruence.
Qed.

Lemma preserved_own_entries old h v :
  preserved old h → (∀ l, v = Ref l → is_Some (old !! l)) →
  own_entries h v = own_entries old v
  ∧ hidden_names h v = hidden_names old v
  ∧ ∀ k, opt_get h v k = opt_get old v k.
Proof.
  intros Hp Hv.
  assert (∀ l, v = Ref l → deref h l = deref old l) as Hderef.
  { intros l ->. destruct (Hv l eq_refl) as [o Ho].
    unfold deref. by rewrite Ho, (Hp _ _ Ho). }
  unfold opt_get.
  destruct v as [| | | | | |l]; try done.
  simpl. by rewrite (Hderef l eq_refl).
Qed.

(** The commands, seen from a store [old] whose objects the current store
    still holds unchanged. *)
Lemma wp_read_any {A : Type} (f : heap → A) (Q : A → heap → Prop) h :
  (∀ a, Q a h) → wp (read f) Q h.
Proof. intros HQ. apply wp_read, HQ. Qed.

Lemma wp_alloc_preserved old o (Q : loc → heap → Prop) h :
  preserved old h →
  (∀ l h', old !! l = None → preserved old h' → Q l h') →
  wp (alloc o) Q h.
Proof.
  intros Hp HQ. apply wp_alloc. intros l Hl. apply HQ.
  - by eapply preserved_fresh.
  - by apply preserved_insert.
Qed.

Lemma wp_update_preserved old l g (Q : unit → heap → Prop) h :
  preserved old h → old !! l = None →
  (∀ h', preserved old h' → Q tt h') →
  wp (update l g) Q h.
Proof.
  intros Hp Hl HQ. apply wp_update, HQ. by apply preserved_alter.
Qed.

End Preservation.

Ltac wp_step old :=
  lazymatch goal with
  | |- wp (mbind _ _) _ _ => apply wp_bind; wp_step old
  | |- wp (read _) _ _ => apply wp_read_any; intro
  | |- wp (alloc _) _ _ =>
      eapply (wp_alloc_preserved old); [eassumption|]; intros ? ? ? ?
  | |- wp (update _ _) _ _ =>
      eapply (wp_update_preserved old); [eassumption|eassumption|]; intros ? ?
  | |- wp (spread_new _) _ _ => unfold spread_new; wp_step old
  | |- wp (if _ then _ else _) _ _ => apply wp_if; intros _
  | |- wp (mret _) _ _ => apply wp_ret
  end.

(** From any store that still holds the objects of [old], the preparation
    ends in one that does, and returns a new object. *)
Lemma prepare_preserves `{Collaborators} (old h : heap) (this : loc)
    (method url : string) (inputOptions : val) :
  preserved old h →
  wp (prepare this method url inputOptions)
     (λ r h', preserved old h' ∧ ∃ l, r.2 = Ref l ∧ old !! l = None) h.
Proof.
  intros Hp. unfold prepare.
  repeat wp_step old. all: eauto.
Qed.

End StoreFacts.

(** The caller's object at 3 keeps [headers] and [query]; the copies at 6
    ([options]), 7 ([headers]) and 8 ([params]) are the ones written to. *)
Example prepare_demo :
  let r := Store.prepare (H := Lab.collaborators Lab.ok_reply)
             1%positive "get" "/v3/domains" (Store.Ref 3%positive) demo_heap in
  r.1 = ("https://api.mailgun.net/v3/domains", Store.Ref 9%positive)
  ∧ r.2 !! 3%positive
    = Some (Store.mkObject Store.Plain
              [("headers", Store.Ref 4%positive); ("query", Store.Ref 5%positive)])
  ∧ r.2 !! 4%positive
    = Some (Store.mkObject Store.Plain [("Content-Type", Store.Null)])
  ∧ r.2 !! 6%positive
    = Some (Store.mkObject Store.Plain [("query", Store.Ref 5%positive)])
  ∧ r.2 !! 7%positive
    = Some (Store.mkObject Store.Plain
              [("Authorization", Store.Str "Basic YXBpOmtleS0x");
               ("X-Env", Store.Str "prod")])
  ∧ r.2 !! 8%positive
    = Some (Store.mkObject Store.Plain [("searchParams", Store.Ref 5%positive)])
  ∧ r.2 !! 9%positive
    = Some (Store.mkObject Store.Plain
              [("method", Store.Str "GET"); ("headers", Store.Ref 7%positive);
               ("throwHttpErrors", Store.Bool false);
               ("timeout", Store.Num 60000);
               ("searchParams", Store.Ref 5%positive)]).
Proof. vm_compute. repeat split. Qed.

(** C9. The preparation of a request (lines 73-104) leaves every object of
    the store it starts from in place and unchanged: the caller's options
    object, the instance and its default headers read as before, own
    properties and all, and the object handed to the transport is a new one.
    The rest of the method reads the response only. *)
Theorem request_writes_only_to_copies `{Collaborators} (h : Store.heap)
    (this : Store.loc) (method url : string) (inputOptions : Store.val) :
  let r := Store.prepare this method url inputOptions h in
  Store.preserved h r.2
  ∧ (∀ v, (∀ l, v = Store.Ref l → is_Some (h !! l)) →
          Store.own_entries r.2 v = Store.own_entries h v
          ∧ ∀ k, Store.opt_get r.2 v k = Store.opt_get h v k)
  ∧ (∃ l, r.1.2 = Store.Ref l ∧ h !! l = None).
Proof.
  intros r.
  pose proof (StoreFacts.prepare_preserves h h this method url inputOptions
                (StoreFacts.preserved_refl h)) as [Hp Hnew].
  fold r in Hp, Hnew. split; [done|]. split; [|done].
  intros v Hv.
  destruct (StoreFacts.preserved_own_entries h r.2 v Hp Hv) as (He & _ & Hg).
  by split.
Qed.

Lemma request_writes_only_to_copies_witness :
  let r := Store.prepare (H := Lab.collaborators Lab.ok_reply)
             1%positive "get" "/v3/domains" (Store.Ref 3%positive) demo_heap in
  Store.own_entries r.2 (Store.Ref 3%positive)
  = [("headers", Store.Ref 4%positive); ("query", Store.Ref 5%positive)].
Proof.
  intros r.
  refine (eq_trans (proj1 (proj1 (proj2
    (request_writes_only_to_copies (H := Lab.collaborators Lab.ok_reply)
       demo_heap 1%positive "get" "/v3/domains" (Store.Ref 3%positive)))
    (Store.Ref 3%positive) _)) eq_refl).
  intros l [= <-]. by eexists.
Defined.

(** ** The store model against the tree model *)

Section MapValues.
Context {V W : Type} (f : V → W).
Implicit Types (k : string) (v : V) (ps target src : list (string * V)).

Lemma obj_lookup_fmap k ps :
  obj_lookup k (prod_map id f <$> ps) = f <$> obj_lookup k ps.
Proof.
  induction ps as [|[k' v'] ps IH]; simpl; [done|].
  by destruct (String.eqb k' k).
Qed.

Lemma obj_update_fmap k v ps :
  obj_update k (f v) (prod_map id f <$> ps) = prod_map id f <$> obj_update k v ps.
Proof.
  induction ps as [|[k' v'] ps IH]; [done|].
  rewrite fmap_cons. cbn [obj_update prod_map fst snd id].
  destruct (String.eqb k' k); [done|].
  rewrite fmap_cons. f_equal. apply IH.
Qed.

Lemma obj_create_fmap k v ps :
  obj_create k (f v) (prod_map id f <$> ps) = prod_map id f <$> obj_create k v ps.
Proof.
  induction ps as [|[k' v'] ps IH]; [done|].
  rewrite fmap_cons. cbn [obj_create prod_map fst snd id].
  destruct (key_before k k'); [done|].
  rewrite fmap_cons. f_equal. apply IH.
Qed.

Lemma obj_set_fmap k v ps :
  obj_set k (f v) (prod_map id f <$> ps) = prod_map id f <$> obj_set k v ps.
Proof.
  unfold obj_set. rewrite obj_lookup_fmap.
  destruct (obj_lookup k ps); simpl.
  - apply obj_update_fmap.
  - apply obj_create_fmap.
Qed.

Lemma obj_delete_fmap k ps :
  obj_delete k (prod_map id f <$> ps) = prod_map id f <$> obj_delete k ps.
Proof.
  unfold obj_delete. induction ps as [|[k' v'] ps IH]; [done|].
  rewrite fmap_cons, !filter_cons. cbn [prod_map fst snd id].
  case_decide; [rewrite fmap_cons; f_equal|]; apply IH.
Qed.

Lemma obj_assign_fmap target src :
  obj_assign (prod_map id f <$> target) (prod_map id f <$> src)
  = prod_map id f <$> obj_assign target src.
Proof.
  revert target. induction src as [|[k v] src IH]; intros target; [done|].
  rewrite fmap_cons, !obj_assign_cons. cbn [prod_map fst snd id].
  by rewrite obj_set_fmap, IH.
Qed.

Lemma keys_fmap ps : (prod_map id f <$> ps).*1 = ps.*1.
Proof.
  rewrite <- list_fmap_compose. apply list_fmap_ext. by intros ? [].
Qed.

End MapValues.

Section ForallValues.
Context {V : Type} (P : V → Prop).
Implicit Types (k : string) (v : V) (ps target src : list (string * V)).

Lemma obj_lookup_Forall k v ps :
  Forall (λ kv, P kv.2) ps → obj_lookup k ps = Some v → P v.
Proof.
  intros Hall Hl. apply obj_lookup_Some_elem in Hl.
  rewrite Forall_forall in Hall. by apply (Hall (k, v)).
Qed.

Lemma obj_set_Forall k v ps :
  P v → Forall (λ kv, P kv.2) ps → Forall (λ kv, P kv.2) (obj_set k v ps).
Proof.
  intros Hv Hps. unfold obj_set. destruct (obj_lookup k ps).
  - induction Hps as [|[k' v'] ps Hkv Hps IH]; cbn [obj_update]; [done|].
    destruct (String.eqb k' k); by apply Forall_cons.
  - rewrite obj_create_Permutation. by apply Forall_cons.
Qed.

Lemma obj_delete_Forall k ps :
  Forall (λ kv, P kv.2) ps → Forall (λ kv, P kv.2) (obj_delete k ps).
Proof.
  intros Hall. apply Forall_forall. intros kv Hkv.
  apply list_elem_of_filter in Hkv as [_ Hkv].
  rewrite Forall_forall in Hall. by apply Hall.
Qed.

Lemma obj_assign_Forall target src :
  Forall (λ kv, P kv.2) target → Forall (λ kv, P kv.2) src →
  Forall (λ kv, P kv.2) (obj_assign target src).
Proof.
  intros Ht Hs. revert target Ht.
  induction Hs as [|[k v] src Hkv _ IH]; intros target Ht; [done|].
  rewrite obj_assign_cons. apply IH. by apply obj_set_Forall.
Qed.

End ForallValues.

Module ReadingFacts.
Import Store Reading.

Lemma indexed_fmap {V W : Type} (f : V → W) (l : list V) :
  prod_map id f <$> indexed l = indexed (f <$> l).
Proof.
  unfold indexed. rewrite fmap_imap, imap_fmap. by apply imap_ext.
Qed.

Lemma view_chars ρ s : view ρ <$> Store.chars s = Js.chars s.
Proof.
  unfold Store.chars, Js.chars. rewrite <- list_fmap_compose.
  by apply list_fmap_ext.
Qed.

Lemma valid_primitive h v : (∀ l, v ≠ Ref l) → valid h v.
Proof. intros Hv l ->. by destruct (Hv l). Qed.

Lemma valid_chars h s : Forall (λ kv, valid h kv.2) (indexed (Store.chars s)).
Proof.
  apply Forall_forall. intros [k v] Hkv. simpl.
  apply list_elem_of_lookup in Hkv as [i Hi].
  unfold indexed in Hi. rewrite list_lookup_imap in Hi.
  unfold Store.chars in Hi. rewrite list_lookup_fmap in Hi.
  destruct (list_ascii_of_string s !! i); [|done].
  injection Hi as <- <-. by apply valid_primitive.
Qed.

Section Consistent.
Context (ρ : loc → value) (h : heap).
Hypothesis Hcons : consistent ρ h.
Hypothesis Hclosed : closed h.
Implicit Types (v : val) (k : string).

Lemma valid_own_entries v :
  valid h v → Forall (λ kv, valid h kv.2) (Store.own_entries h v).
Proof.
  intros Hv. destruct v as [| | | | |s|l]; try by constructor.
  - apply valid_chars.
  - destruct (Hv l eq_refl) as [o Ho]. simpl. unfold deref. rewrite Ho.
    by eapply Hclosed.
Qed.

Lemma valid_opt_get v k : valid h v → valid h (Store.opt_get h v k).
Proof.
  intros Hv. unfold Store.opt_get. destruct (Store.nullish v); [by intros ?|].
  destruct (obj_lookup k (Store.own_entries h v)) as [w|] eqn:Hl; simpl.
  - by eapply (obj_lookup_Forall (valid h)), Hl; apply valid_own_entries.
  - apply valid_primitive. intros l. unfold Store.inherent.
    by repeat case_match.
Qed.

Lemma view_truthy v : valid h v → Js.truthy (view ρ v) = Store.truthy v.
Proof.
  intros Hv. destruct v as [| | | | | |l]; try done.
  destruct (Hv l eq_refl) as [o Ho]. specialize (Hcons l o Ho). simpl.
  destruct (kind_of o).
  - by rewrite Hcons.
  - by destruct Hcons as (items & _ & ->).
  - by destruct Hcons as (_ & src & ->).
Qed.

Lemma view_nullish v : valid h v → Js.nullish (view ρ v) = Store.nullish v.
Proof.
  intros Hv. destruct v as [| | | | | |l]; try done.
  destruct (Hv l eq_refl) as [o Ho]. specialize (Hcons l o Ho). simpl.
  destruct (kind_of o).
  - by rewrite Hcons.
  - by destruct Hcons as (items & _ & ->).
  - by destruct Hcons as (_ & src & ->).
Qed.

Lemma view_own_entries v :
  valid h v → Js.own_entries (view ρ v) = view_props ρ (Store.own_entries h v).
Proof.
  intros Hv. destruct v as [| | | | |s|l]; try done.
  - simpl. unfold view_props. by rewrite indexed_fmap, view_chars.
  - destruct (Hv l eq_refl) as [o Ho]. specialize (Hcons l o Ho). simpl.
    unfold deref. rewrite Ho. simpl. destruct (kind_of o).
    + by rewrite Hcons.
    + destruct Hcons as (items & -> & ->). simpl.
      unfold view_props. by rewrite indexed_fmap.
    + by destruct Hcons as (-> & src & ->).
Qed.

Lemma view_hidden_names v :
  valid h v → Js.hidden_names (view ρ v) = Store.hidden_names h v.
Proof.
  intros Hv. destruct v as [| | | | |s|l]; try done.
  destruct (Hv l eq_refl) as [o Ho]. specialize (Hcons l o Ho). simpl.
  unfold deref. rewrite Ho. simpl. destruct (kind_of o).
  - by rewrite Hcons.
  - by destruct Hcons as (items & _ & ->).
  - by destruct Hcons as (_ & src & ->).
Qed.

Lemma view_own_property_names v :
  valid h v →
  Js.own_property_names (view ρ v) = Store.own_property_names h v.
Proof.
  intros Hv. unfold Js.own_property_names, Store.own_property_names.
  rewrite view_own_entries, view_hidden_names by done.
  unfold view_props. by rewrite keys_fmap.
Qed.

Lemma view_inherent v k :
  valid h v → Js.inherent (view ρ v) k = view ρ (Store.inherent h v k).
Proof.
  intros Hv. destruct v as [| | | | |s|l]; try done.
  - simpl. by destruct (String.eqb k "length").
  - destruct (Hv l eq_refl) as [o Ho]. specialize (Hcons l o Ho). simpl.
    unfold deref. rewrite Ho. simpl. destruct (kind_of o).
    + by rewrite Hcons.
    + destruct Hcons as (items & -> & ->). simpl.
      destruct (String.eqb k "length"); [|done]. simpl.
      unfold indexed. by rewrite length_fmap, length_imap.
    + by destruct Hcons as (_ & src & ->).
Qed.

Lemma view_opt_get v k :
  valid h v → Js.opt_get (view ρ v) k = view ρ (Store.opt_get h v k).
Proof.
  intros Hv. unfold Js.opt_get, Store.opt_get.
  rewrite view_nullish by done. destruct (Store.nullish v); [done|].
  rewrite view_own_entries by done. unfold view_props.
  rewrite obj_lookup_fmap, view_inherent by done.
  by destruct (obj_lookup k (Store.own_entries h v)).
Qed.

End Consistent.

End ReadingFacts.

Module PrepareFacts.
Import Store Reading StoreFacts ReadingFacts.

Lemma wp_when (b : bool) (m : M unit) (Q : unit → heap → Prop) (h : heap) :
  Q tt (if b then (m h).2 else h) → wp (if b then m else mret tt) Q h.
Proof. unfold wp. destruct b; [|done]. by destruct (m h) as [[] h']. Qed.

Lemma opt_get_plain (h : heap) (l : loc) (ps : list (string * val)) (k : string) :
  h !! l = Some (mkObject Plain ps) →
  Store.opt_get h (Ref l) k = default Undefined (obj_lookup k ps).
Proof.
  intros Hl. unfold Store.opt_get, Store.inherent, Store.own_entries, deref.
  by rewrite Hl.
Qed.

Lemma own_entries_at (h : heap) (l : loc) (o : object) :
  h !! l = Some o → Store.own_entries h (Ref l) = props_of o.
Proof. intros Hl. unfold Store.own_entries, deref. by rewrite Hl. Qed.

(** Reading a value of the old store in a store that preserves it. *)
Lemma read_old (old h : heap) (v : val) :
  preserved old h → valid old v →
  Store.own_entries h v = Store.own_entries old v
  ∧ Store.own_property_names h v = Store.own_property_names old v
  ∧ ∀ k, Store.opt_get h v k = Store.opt_get old v k.
Proof.
  intros Hp Hv.
  destruct (preserved_own_entries old h v Hp Hv) as (He & Hh & Hg).
  unfold Store.own_property_names. by rewrite He, Hh.
Qed.

Section Execution.
Context `{Collaborators}.

(** The preparation, run: where it ends, in terms of the store it starts
    from. *)
Lemma prepare_result (h : heap) (this : loc) (method url : string)
    (inputOptions : val) :
  closed h → is_Some (h !! this) → valid h inputOptions →
  let r := prepare this method url inputOptions h in
  ∃ lh ll,
    r.1 = (urljoin (ToString (Store.opt_get h (Ref this) "url")) url, Ref ll)
    ∧ h !! lh = None ∧ h !! ll = None
    ∧ r.2 !! lh = Some (mkObject Plain (headers_of h this inputOptions))
    ∧ r.2 !! ll
      = Some (mkObject Plain
                (obj_assign
                   [("method", Str (toLocaleUpperCase method));
                    ("headers", Ref lh);
                    ("throwHttpErrors", Bool false);
                    ("timeout", Store.opt_get h (Ref this) "timeout")]
                   (params_of h inputOptions))).
Proof.
  intros Hclosed Hthis Hinput r.
  assert (valid h (Ref this)) as Hvthis by (by intros ? [= <-]).
  assert (Forall (λ kv, valid h kv.2) (Store.own_entries h inputOptions))
    as Hentries by (by apply valid_own_entries).
  set (entries := Store.own_entries h inputOptions) in *.
  change (wp (prepare this method url inputOptions)
            (λ r h', ∃ lh ll,
               r = (urljoin (ToString (Store.opt_get h (Ref this) "url")) url, Ref ll)
               ∧ h !! lh = None ∧ h !! ll = None
               ∧ h' !! lh = Some (mkObject Plain (headers_of h this inputOptions))
               ∧ h' !! ll
                 = Some (mkObject Plain
                           (obj_assign
                              [("method", Str (toLocaleUpperCase method));
                               ("headers", Ref lh);
                               ("throwHttpErrors", Bool false);
                               ("timeout", Store.opt_get h (Ref this) "timeout")]
                              (params_of h inputOptions)))) h).
  unfold prepare.
  (* const options = { ...inputOptions } *)
  apply wp_bind, wp_spread_new. intros lo Hlo. fold entries.
  set (h1 := <[lo := mkObject Plain entries]> h).
  assert (preserved h h1) as Hp1 by (by apply preserved_insert, Hlo; apply preserved_refl).
  assert (h1 !! lo = Some (mkObject Plain entries)) as Hlo1
    by apply lookup_insert_eq.
  destruct (read_old h h1 (Ref this) Hp1 Hvthis) as (_ & _ & Hthis1).
  apply wp_bind, wp_read. rewrite Hthis1.
  apply wp_bind, wp_read. rewrite Hthis1.
  apply wp_bind, wp_read. rewrite Hthis1.
  assert (valid h (Store.opt_get h (Ref this) "headers")) as Hvinst
    by (by apply valid_opt_get).
  destruct (read_old h h1 _ Hp1 Hvinst) as (-> & _ & _).
  apply wp_bind, wp_read. rewrite (opt_get_plain h1 lo entries) by done.
  assert (valid h (default Undefined (obj_lookup "headers" entries))) as Hvcall.
  { destruct (obj_lookup "headers" entries) as [w|] eqn:Hw; simpl.
    - by eapply (obj_lookup_Forall (valid h)), Hw.
    - by apply valid_primitive. }
  destruct (read_old h h1 _ Hp1 Hvcall) as (-> & _ & _).
  (* const headers = { Authorization, ...this.headers, ...options?.headers } *)
  set (merged := obj_assign _ _).
  apply wp_bind, wp_alloc. intros lh Hlh.
  set (h2 := <[lh := mkObject Plain merged]> h1).
  assert (h !! lh = None) as Hlh0 by (by eapply preserved_fresh).
  assert (lh ≠ lo) as Hne1 by (intros ->; congruence).
  assert (preserved h h2) as Hp2 by (by apply preserved_insert).
  (* delete options?.headers *)
  apply wp_bind, wp_update.
  set (h3 := alter _ lo h2).
  assert (preserved h h3) as Hp3 by (by apply preserved_alter).
  assert (h3 !! lo = Some (mkObject Plain (obj_delete "headers" entries)))
    as Hlo3.
  { subst h3 h2. by rewrite lookup_alter_eq, lookup_insert_ne, Hlo1. }
  assert (h3 !! lh = Some (mkObject Plain merged)) as Hlh3.
  { subst h3 h2. by rewrite lookup_alter_ne, lookup_insert_eq. }
  (* if (!headers['Content-Type']) delete headers['Content-Type'] *)
  apply wp_bind, wp_read. rewrite (opt_get_plain h3 lh merged) by done.
  apply wp_bind, wp_when.
  set (h4 := if negb _ then _ else h3).
  assert (preserved h h4) as Hp4.
  { subst h4. case_match; [|done]. by apply preserved_alter. }
  assert (h4 !! lo = Some (mkObject Plain (obj_delete "headers" entries)))
    as Hlo4.
  { subst h4. case_match; [|done]. simpl. by rewrite lookup_alter_ne. }
  assert (h4 !! lh = Some (mkObject Plain (headers_of h this inputOptions)))
    as Hlh4.
  { subst h4. unfold headers_of. fold entries merged. case_match; [|done].
    simpl. by rewrite lookup_alter_eq, Hlh3. }
  (* const params = { ...options } *)
  apply wp_bind, wp_spread_new. intros lp Hlp.
  rewrite (own_entries_at h4 lo _ Hlo4). simpl.
  set (h5 := <[lp := _]> h4).
  assert (h !! lp = None) as Hlp0 by (by eapply preserved_fresh).
  assert (lp ≠ lo) as Hne2 by (intros ->; congruence).
  assert (lp ≠ lh) as Hne3 by (intros ->; congruence).
  assert (preserved h h5) as Hp5 by (by apply preserved_insert).
  assert (h5 !! lo = Some (mkObject Plain (obj_delete "headers" entries)))
    as Hlo5 by (subst h5; by rewrite lookup_insert_ne).
  (* the move of query into searchParams *)
  apply wp_bind, wp_read. rewrite (opt_get_plain h5 lo _ _ Hlo5).
  set (query := default Undefined (obj_lookup "query" _)).
  assert (valid h query) as Hvquery.
  { subst query.
    destruct (obj_lookup "query" (obj_delete "headers" entries)) as [w|] eqn:Hw;
      simpl; [|by apply valid_primitive].
    eapply (obj_lookup_Forall (valid h)), Hw. by apply obj_delete_Forall. }
  apply wp_bind, wp_read.
  destruct (read_old h h5 _ Hp5 Hvquery) as (_ & -> & _).
  apply wp_bind, wp_when.
  set (h6 := if _ && _ then _ else h5).
  assert (preserved h h6) as Hp6.
  { subst h6. case_match; [|done]. simpl.
    apply preserved_alter; [|done]. by apply preserved_alter. }
  assert (h6 !! lh = Some (mkObject Plain (headers_of h this inputOptions)))
    as Hlh6.
  { subst h6. case_match; simpl.
    - rewrite !lookup_alter_ne by done. subst h5. by rewrite lookup_insert_ne.
    - subst h5. by rewrite lookup_insert_ne. }
  assert (h6 !! lp = Some (mkObject Plain (params_of h inputOptions))) as Hlp6.
  { subst h6. unfold params_of. fold entries query. case_match; simpl.
    - rewrite !lookup_alter_eq. subst h5. by rewrite lookup_insert_eq.
    - subst h5. by rewrite lookup_insert_eq. }
  destruct (read_old h h6 (Ref this) Hp6 Hvthis) as (_ & _ & Hthis6).
  apply wp_bind, wp_read. rewrite Hthis6.
  apply wp_bind, wp_read. rewrite Hthis6.
  apply wp_bind, wp_read. unfold deref. rewrite Hlp6. simpl.
  (* the object literal of the call *)
  apply wp_bind, wp_alloc. intros ll Hll.
  assert (h !! ll = None) as Hll0 by (by eapply preserved_fresh).
  assert (ll ≠ lh) as Hne4 by (intros ->; congruence).
  apply wp_ret. exists lh, ll.
  split; [done|]. split; [done|]. split; [done|].
  split; [by rewrite lookup_insert_ne | by rewrite lookup_insert_eq].
Qed.
End Execution.

Section Refinement.
Context `{Collaborators}.
Context (ρ : loc → value) (h : heap).
Hypothesis Hcons : consistent ρ h.
Hypothesis Hclosed : closed h.

Lemma opt_get_view_props (ps : list (string * val)) (k : string) :
  Js.opt_get (VObj (view_props ρ ps)) k
  = view ρ (default Undefined (obj_lookup k ps)).
Proof.
  unfold Js.opt_get, view_props. simpl. rewrite obj_lookup_fmap.
  by destruct (obj_lookup k ps).
Qed.

Lemma valid_default_lookup (ps : list (string * val)) (k : string) :
  Forall (λ kv, valid h kv.2) ps →
  valid h (default Undefined (obj_lookup k ps)).
Proof.
  intros Hps. destruct (obj_lookup k ps) as [w|] eqn:Hw; simpl.
  - by eapply (obj_lookup_Forall (valid h)), Hw.
  - by apply valid_primitive.
Qed.

(** The [headers] object of the store model reads as the outgoing headers
    of the tree model. *)
Lemma headers_of_view (this : loc) (inputOptions : val) :
  is_Some (h !! this) → valid h inputOptions →
  view_props ρ (headers_of h this inputOptions)
  = outgoing_headers (this_of ρ h this) (view ρ inputOptions).
Proof.
  intros Hthis Hinput.
  assert (valid h (Ref this)) as Hvthis by (by intros ? [= <-]).
  pose proof (valid_own_entries h Hclosed _ Hinput) as Hentries.
  pose proof (valid_opt_get h Hclosed _ "headers" Hvthis) as Hvinst.
  pose proof (valid_default_lookup _ "headers" Hentries) as Hvcall.
  unfold outgoing_headers, Request.merged_headers, headers_of, this_of.
  cbn [This.headers This.username This.key].
  unfold Js.spread.
  rewrite (view_own_entries ρ h Hcons inputOptions) by done.
  rewrite opt_get_view_props.
  rewrite !(view_own_entries ρ h Hcons) by done.
  set (merged := obj_assign (obj_assign _ _) _).
  set (auth := VStr _).
  change [("Authorization", auth)]
    with (view_props ρ
            [("Authorization",
              Str ("Basic " +:+
                   Btoa (ToString (Store.opt_get h (Ref this) "username")
                         +:+ ":"
                         +:+ ToString (Store.opt_get h (Ref this) "key"))))]).
  unfold view_props. rewrite !obj_assign_fmap. fold merged.
  assert (Forall (λ kv, valid h kv.2) merged) as Hmerged.
  { subst merged. apply obj_assign_Forall; [apply obj_assign_Forall|].
    - apply Forall_singleton. by apply valid_primitive.
    - by apply valid_own_entries.
    - by apply valid_own_entries. }
  unfold Request.strip_content_type, index.
  fold (view_props ρ merged). rewrite opt_get_view_props.
  rewrite (view_truthy ρ h Hcons) by by apply valid_default_lookup.
  case_match; [|done]. unfold view_props. by rewrite obj_delete_fmap.
Qed.

(** The [params] object of the store model reads as the [params] of the
    tree model. *)
Lemma params_of_view (inputOptions : val) :
  valid h inputOptions →
  view_props ρ (params_of h inputOptions)
  = Request.move_query (obj_delete "headers" (spread (view ρ inputOptions))).
Proof.
  intros Hinput.
  pose proof (valid_own_entries h Hclosed _ Hinput) as Hentries.
  unfold params_of, Request.move_query, Js.spread.
  rewrite (view_own_entries ρ h Hcons) by done.
  assert (obj_delete "headers" (view_props ρ (Store.own_entries h inputOptions))
          = view_props ρ (obj_delete "headers" (Store.own_entries h inputOptions)))
    as -> by apply obj_delete_fmap.
  rewrite opt_get_view_props.
  set (options := obj_delete "headers" _).
  assert (valid h (default Undefined (obj_lookup "query" options))) as Hq.
  { apply valid_default_lookup. by apply obj_delete_Forall. }
  rewrite (view_truthy ρ h Hcons), (view_own_property_names ρ h Hcons) by done.
  case_match; [|done].
  unfold view_props. by rewrite obj_set_fmap, obj_delete_fmap.
Qed.

Lemma tree_of_valid (new : heap) (depth : nat) (v : val) :
  valid h v → tree_of ρ h new depth v = view ρ v.
Proof.
  intros Hv. destruct v as [| | | | | |l]; try by destruct depth.
  specialize (Hv l eq_refl).
  destruct depth; simpl; by rewrite decide_True.
Qed.

Lemma tree_of_valid_props (new : heap) (depth : nat) (ps : list (string * val)) :
  Forall (λ kv, valid h kv.2) ps →
  prod_map id (tree_of ρ h new depth) <$> ps = view_props ρ ps.
Proof.
  intros Hps. unfold view_props. apply Forall_fmap_ext.
  eapply Forall_impl; [exact Hps|].
  intros [k v] Hv. simpl in *. unfold prod_map. simpl.
  by rewrite tree_of_valid.
Qed.

Lemma tree_of_new (new : heap) (depth : nat) (l : loc) (o : object) :
  h !! l = None → new !! l = Some o →
  tree_of ρ h new (S depth) (Ref l)
  = VObj (prod_map id (tree_of ρ h new depth) <$> props_of o).
Proof.
  intros Hold Hnew. simpl.
  rewrite decide_False by (rewrite Hold; by intros [? ?]).
  unfold deref. by rewrite Hnew.
Qed.

Lemma headers_of_valid (this : loc) (inputOptions : val) :
  is_Some (h !! this) → valid h inputOptions →
  Forall (λ kv, valid h kv.2) (headers_of h this inputOptions).
Proof.
  intros Hthis Hinput.
  assert (valid h (Ref this)) as Hvthis by (by intros ? [= <-]).
  pose proof (valid_own_entries h Hclosed _ Hinput) as Hentries.
  unfold headers_of. set (merged := obj_assign (obj_assign _ _) _).
  assert (Forall (λ kv, valid h kv.2) merged) as Hmerged.
  { subst merged. apply obj_assign_Forall; [apply obj_assign_Forall|].
    - apply Forall_singleton. by apply valid_primitive.
    - by apply valid_own_entries, valid_opt_get.
    - by apply valid_own_entries, valid_default_lookup. }
  case_match; [by apply obj_delete_Forall | done].
Qed.

Lemma params_of_valid (inputOptions : val) :
  valid h inputOptions →
  Forall (λ kv, valid h kv.2) (params_of h inputOptions).
Proof.
  intros Hinput.
  pose proof (valid_own_entries h Hclosed _ Hinput) as Hentries.
  unfold params_of. set (options := obj_delete "headers" _).
  assert (Forall (λ kv, valid h kv.2) options) as Hoptions
    by (by apply obj_delete_Forall).
  case_match; [|done].
  apply obj_delete_Forall, obj_set_Forall; [|done].
  by apply valid_default_lookup.
Qed.

(** The store model refines the tree model: from a closed store that [ρ]
    unfolds, the preparation returns the URL of [Request.ky_call], and the
    object it hands to the transport reads, off the final store, as the
    options of [Request.ky_call]. *)
Theorem prepare_refines (this : loc) (method url : string) (inputOptions : val) :
  is_Some (h !! this) → valid h inputOptions →
  let r := prepare this method url inputOptions h in
  let call :=
    Request.ky_call (this_of ρ h this) method url (view ρ inputOptions) in
  r.1.1 = call.1 ∧ tree_of ρ h r.2 2 r.1.2 = call.2.
Proof.
  intros Hthis Hinput r call.
  assert (valid h (Ref this)) as Hvthis by (by intros ? [= <-]).
  destruct (prepare_result h this method url inputOptions Hclosed Hthis Hinput)
    as (lh & ll & Hr & Hlh & Hll & Hlh' & Hll').
  fold r in Hr, Hlh', Hll'. rewrite Hr. split; [done|].
  cbn [fst snd].
  rewrite (tree_of_new r.2 1 ll _ Hll Hll'). cbn [props_of].
  rewrite <- obj_assign_fmap.
  rewrite (tree_of_valid_props r.2 1 (params_of h inputOptions))
    by by apply params_of_valid.
  rewrite params_of_view by done.
  rewrite !fmap_cons, fmap_nil. cbn [prod_map fst snd id].
  rewrite (tree_of_new r.2 0 lh _ Hlh Hlh'). cbn [props_of].
  rewrite tree_of_valid_props by by apply headers_of_valid.
  rewrite headers_of_view by done.
  rewrite (tree_of_valid r.2 1 (Store.opt_get h (Ref this) "timeout"))
    by by apply valid_opt_get.
  reflexivity.
Qed.

End Refinement.
End PrepareFacts.

(** The hypotheses of [prepare_refines] hold of the demonstration store. *)
Lemma demo_heap_objects (l : Store.loc) (o : Store.object) :
  demo_heap !! l = Some o →
  (l, o) ∈ map_to_list demo_heap.
Proof. apply elem_of_map_to_list. Qed.

Example demo_heap_refines :
  let r := Store.prepare (H := Lab.collaborators Lab.ok_reply)
             1%positive "get" "/v3/domains" (Store.Ref 3%positive) demo_heap in
  Reading.tree_of demo_trees demo_heap r.2 2 r.1.2
  = (Request.ky_call (H := Lab.collaborators Lab.ok_reply)
       (Lab.this (VObj [("X-Env", VStr "prod")])) "get" "/v3/domains"
       (VObj [("headers", VObj [("Content-Type", VNull)]);
              ("query", VObj [("a", VStr "1")])])).2.
Proof.
  refine (proj2 (PrepareFacts.prepare_refines (H := Lab.collaborators Lab.ok_reply)
            demo_trees demo_heap _ _ 1%positive "get" "/v3/domains"
            (Store.Ref 3%positive) _ _)).
  - intros l o Hl. apply demo_heap_objects in Hl.
    vm_compute in Hl.
    repeat (apply elem_of_cons in Hl as [[= -> ->]|Hl]; [reflexivity|]).
    by apply elem_of_nil in Hl.
  - intros l o Hl. apply demo_heap_objects in Hl.
    vm_compute in Hl.
    repeat (apply elem_of_cons in Hl as [[= -> ->]|Hl];
            [repeat constructor; intros ? [= <-]; by eexists|]).
    by apply elem_of_nil in Hl.
  - by eexists.
  - intros ? [= <-]. by eexists.
Qed.

(** * Further properties of the module *)

(** ** Outcomes of [request] *)

Section Outcomes.
Context `{Collaborators}.

(** X1. [request] resolves only on a response with [ok] true whose [json()]
    resolved, to that status and that body; it passes on a rejection of the
    transport unchanged; and it stays pending exactly when the transport
    does, or [json()] does where it is awaited, or the drained stream never
    ends. *)
Theorem request_outcome_sound (this : This.t) (method url : string)
    (inputOptions : value) :
  let call := Request.ky_call this method url inputOptions in
  let result := Request.request this method url inputOptions in
  (∀ r, result = Resolved r →
        ∃ response,
          ky call.1 call.2 = Resolved response
          ∧ Resp.ok response = true
          ∧ Resp.json response = Resolved (APIResponse.body r)
          ∧ APIResponse.status r = Resp.status response)
  ∧ (∀ e, ky call.1 call.2 = Rejected e → result = Rejected e)
  ∧ (result = Pending ↔
       ky call.1 call.2 = Pending
       ∨ ∃ response,
           ky call.1 call.2 = Resolved response
           ∧ ((Resp.ok response = true ∧ Resp.json response = Pending)
              ∨ (Resp.ok response = false
                 ∧ streamed (Resp.body response) = Normal false
                 ∧ Resp.json response = Pending)
              ∨ (Resp.ok response = false
                 ∧ streamed (Resp.body response) = Normal true
                 ∧ streamToString (Resp.body response) = Pending))).
Proof.
  intros call result. subst result. unfold Request.request. fold call.
  destruct (ky call.1 call.2) as [response|e|] eqn:Hky; simpl.
  - unfold Request.normalize. fold (streamed (Resp.body response)).
    destruct (streamed_total (Resp.body response)) as [b Hb]. rewrite Hb.
    destruct (Resp.ok response) eqn:Hok; simpl.
    + destruct (Resp.json response) as [j| |] eqn:Hj; simpl.
      * split; [|split; [done|]].
        -- intros r [= <-]. by exists response.
        -- split; [done|]. intros [?|(r' & [= <-] & Hcases)]; [done|].
           destruct Hcases as [[_ ?]|[[? _]|[? _]]]; congruence.
      * split; [done|]. split; [done|].
        split; [done|]. intros [?|(r' & [= <-] & Hcases)]; [done|].
        destruct Hcases as [[_ ?]|[[? _]|[? _]]]; congruence.
      * split; [done|]. split; [done|]. split; [|done].
        intros _. right. exists response. split; [done|]. by left.
    + destruct b; simpl.
      * destruct (streamToString (Resp.body response)) as [m| |] eqn:Hm; simpl.
        -- split; [done|]. split; [done|]. split; [done|].
           intros [?|(r' & [= <-] & Hcases)]; [done|].
           destruct Hcases as [[? _]|[(_ & ? & _)|(_ & _ & ?)]]; congruence.
        -- split; [done|]. split; [done|]. split; [done|].
           intros [?|(r' & [= <-] & Hcases)]; [done|].
           destruct Hcases as [[? _]|[(_ & ? & _)|(_ & _ & ?)]]; congruence.
        -- split; [done|]. split; [done|]. split; [|done].
           intros _. right. exists response. split; [done|]. right. by right.
      * destruct (Resp.json response) as [j| |] eqn:Hj; simpl.
        -- split; [done|]. split; [done|]. split; [done|].
           intros [?|(r' & [= <-] & Hcases)]; [done|].
           destruct Hcases as [[? _]|[(_ & _ & ?)|(_ & ? & _)]]; congruence.
        -- split; [done|]. split; [done|]. split; [done|].
           intros [?|(r' & [= <-] & Hcases)]; [done|].
           destruct Hcases as [[? _]|[(_ & _ & ?)|(_ & ? & _)]]; congruence.
        -- split; [done|]. split; [done|]. split; [|done].
           intros _. right. exists response. split; [done|]. right. by left.
  - split; [done|]. split; [by intros ? [= <-]|].
    split; [done|]. intros [?|(r' & ? & _)]; congruence.
  - split; [done|]. split; [done|]. split; [|done]. intros _. by left.
Qed.

End Outcomes.

(** ** Draining a stream *)

Section Draining.
Context `{Collaborators}.

(** Every run of events is data only, or data up to a first [end], or data
    up to a first [error]. *)
Lemma events_shape (events : list StreamEvent) :
  (∃ chunks, events = EvData <$> chunks)
  ∨ (∃ chunks rest, events = (EvData <$> chunks) ++ EvEnd :: rest)
  ∨ (∃ chunks err rest, events = (EvData <$> chunks) ++ EvError err :: rest).
Proof.
  induction events as [|[chunk|err|] events IH].
  - left. by exists [].
  - destruct IH as [[cs ->]|[(cs & rest & ->)|(cs & err & rest & ->)]].
    + left. by exists (chunk :: cs).
    + right. left. by exists (chunk :: cs), rest.
    + right. right. by exists (chunk :: cs), err, rest.
  - right. right. by exists [], err, events.
  - right. left. by exists [], events.
Qed.

(** X2. [streamToString] on a stream resolves exactly when an [end] comes
    before any [error], with the decoding of the chunks emitted before that
    [end], in order, whatever follows; it rejects exactly when an [error]
    comes first, with that error; and it never settles exactly when the
    stream emits data only. *)
Theorem streamToString_settles (events : list StreamEvent) :
  (∀ v, streamToString (VStream events) = Resolved v ↔
        ∃ chunks rest,
          events = (EvData <$> chunks) ++ EvEnd :: rest
          ∧ v = VStr (Buffer_toString_utf8 (concat chunks)))
  ∧ (∀ e, streamToString (VStream events) = Rejected e ↔
          ∃ chunks err rest,
            events = (EvData <$> chunks) ++ EvError err :: rest
            ∧ e = StreamFailure err)
  ∧ (streamToString (VStream events) = Pending ↔
       ∃ chunks, events = EvData <$> chunks).
Proof.
  simpl. split; [|split].
  - intros v. split.
    + intros Hv.
      destruct (events_shape events)
        as [[cs ->]|[(cs & rest & ->)|(cs & err & rest & ->)]].
      * by rewrite drain_data_only in Hv.
      * rewrite drain_data_end in Hv. injection Hv as <-. by exists cs, rest.
      * by rewrite drain_data_error in Hv.
    + intros (cs & rest & -> & ->). by rewrite drain_data_end.
  - intros e. split.
    + intros He.
      destruct (events_shape events)
        as [[cs ->]|[(cs & rest & ->)|(cs & err & rest & ->)]].
      * by rewrite drain_data_only in He.
      * by rewrite drain_data_end in He.
      * rewrite drain_data_error in He. injection He as <-.
        by exists cs, err, rest.
    + intros (cs & err & rest & -> & ->). by rewrite drain_data_error.
  - split.
    + intros Hp.
      destruct (events_shape events)
        as [[cs ->]|[(cs & rest & ->)|(cs & err & rest & ->)]].
      * by exists cs.
      * by rewrite drain_data_end in Hp.
      * by rewrite drain_data_error in Hp.
    + intros [cs ->]. by rewrite drain_data_only.
Qed.

End Draining.

(** ** When [createFormData] returns *)

Section Throwing.
Implicit Types (data item : value) (key : string) (acc : list Field).

Lemma get_prop_TypeError item k e :
  get_prop item k = Throw e → ∃ msg, e = TypeError msg.
Proof.
  unfold get_prop. destruct (nullish item); [|done].
  intros [= <-]. by eexists.
Qed.

Lemma append_attachment_TypeError key acc item e :
  Request.append_attachment key acc item = Throw e → ∃ msg, e = TypeError msg.
Proof.
  intros He. destruct (nullish item) eqn:Hn.
  - destruct item; try done; simpl in He; injection He as <-; by eexists.
  - destruct (append_attachment_total key acc item Hn) as (f & Hf & _).
    congruence.
Qed.

Lemma forEach_TypeError {A : Type} (f : list Field → A → Completion (list Field))
    (l : list A) acc e :
  (∀ acc x e, f acc x = Throw e → ∃ msg, e = TypeError msg) →
  forEach f l acc = Throw e → ∃ msg, e = TypeError msg.
Proof.
  intros Hf. revert acc. induction l as [|x l IH]; intros acc; simpl; [done|].
  destruct (f acc x) as [acc'|e'] eqn:Hx; simpl.
  - apply IH.
  - intros [= <-]. by eapply Hf.
Qed.

Lemma reducer_TypeError data acc key e :
  Request.reducer data acc key = Throw e → ∃ msg, e = TypeError msg.
Proof.
  unfold Request.reducer. repeat case_match; try done.
  - apply forEach_TypeError. apply append_attachment_TypeError.
  - apply append_attachment_TypeError.
  - by rewrite forEach_plain_append.
Qed.

(** X3. [createFormData] returns exactly when its input is neither [null]
    nor [undefined] and no spec in an array under [attachment] or [inline]
    is; what it returns is a multipart body, and what it throws otherwise is
    a TypeError. [postMulti] and [putMulti] throw that same error before any
    request is made. *)
Theorem createFormData_returns_iff `{Collaborators} (data : value) :
  ((∃ fields, Request.createFormData data = Normal (VFormData fields))
   ↔ nullish data = false ∧ specs_present data)
  ∧ (∀ v, Request.createFormData data = Normal v → ∃ fields, v = VFormData fields)
  ∧ (∀ e, Request.createFormData data = Throw e → ∃ msg, e = TypeError msg)
  ∧ (∀ this url e,
       Request.createFormData data = Throw e →
       Request.postMulti this url data = Throw e
       ∧ Request.putMulti this url data = Throw e).
Proof.
  split; [|split; [|split]].
  - split.
    + intros [fields Hfd]. by eapply createFormData_returned.
    + intros [Hn Hspecs]. by apply createFormData_returns.
  - unfold Request.createFormData. intros v.
    destruct (Object_keys data); simpl; [|done].
    destruct (forEach _ _ _); simpl; [|done]. intros [= <-]. by eexists.
  - unfold Request.createFormData, Object_keys. intros e.
    destruct (nullish data); simpl; [intros [= <-]; by eexists|].
    destruct (forEach _ _ _) eqn:Hfold; simpl; [done|]. intros [= <-].
    eapply forEach_TypeError, Hfold. apply reducer_TypeError.
  - intros this url e He. unfold Request.postMulti, Request.putMulti.
    by rewrite He.
Qed.

End Throwing.

(** ** The order and number of the fields *)

Section FieldOrder.
Implicit Types (data v : value) (key k : string) (c : list Field).

Lemma names_replicate k c :
  Forall (λ f, field_name f = k) c → field_name <$> c = replicate (length c) k.
Proof.
  induction 1 as [|f c Hf _ IH]; [done|].
  rewrite fmap_cons, Hf, IH. done.
Qed.

Lemma truthy_not_nullish v : truthy v = true → nullish v = false.
Proof. by destruct v. Qed.

(** A kept key contributes [field_count] fields. *)
Lemma reducer_length data k c :
  truthy (index data k) = true →
  Request.reducer data [] k = Normal c →
  length c = field_count (index data k).
Proof.
  intros Ht Hc. unfold field_count.
  destruct (Array_isArray (index data k)) eqn:Harr.
  - destruct (index data k) as [| | | | | | |items| | | |] eqn:Hidx; try done.
    destruct (reducer_array _ _ _ _ Hidx Hc) as [Hplain Hres]. simpl.
    destruct (reserved k).
    + symmetry. by eapply Forall2_length, Hres.
    + by rewrite (Hplain eq_refl), length_fmap.
  - revert Hc. unfold Request.reducer. rewrite Harr.
    pose proof (truthy_not_nullish _ Ht) as Hn.
    destruct (String.eqb k "attachment" || String.eqb k "inline").
    + destruct (append_attachment_total k [] _ Hn) as (f & -> & _).
      by intros [= <-].
    + unfold loose_neq_null. rewrite Hn. by intros [= <-].
Qed.

(** X4. In the body [createFormData] returns, the field names are the keys
    with a truthy value, in the order of the input's keys, each repeated once
    per element when its value is an array and once otherwise: the fields of
    one key are adjacent, and keys do not interleave. *)
Theorem createFormData_field_names (data : value) (fields : list Field) :
  Request.createFormData data = Normal (VFormData fields) →
  field_name <$> fields
  = kept_keys data ≫= (λ k, replicate (field_count (index data k)) k).
Proof.
  intros Hfd. apply createFormData_inv in Hfd as [_ Hfold].
  apply forEach_reducer in Hfold as (cs & -> & Hcs). rewrite app_nil_l.
  assert (Forall (λ k, truthy (index data k) = true) (kept_keys data)) as Hkept.
  { apply Forall_forall. intros k Hk. by apply kept_keys_elem in Hk as [_ ?]. }
  induction Hcs as [|k c keys cs [Hc Hnames] _ IH]; [done|].
  apply Forall_cons in Hkept as [Ht Hkept].
  change (concat (c :: cs)) with (c ++ concat cs).
  rewrite fmap_app, bind_cons, (IH Hkept). f_equal.
  rewrite <- (reducer_length data k c Ht Hc). by apply names_replicate.
Qed.

Lemma createFormData_field_names_witness :
  field_name <$>
    [mkField "o:tag" (VStr "x") None; mkField "o:tag" (VStr "y") None;
     mkField "to" (VStr "a@b.c") None]
  = kept_keys (VObj [("o:tag", VArr [VStr "x"; VStr "y"]); ("cc", VNull);
                     ("to", VStr "a@b.c")])
    ≫= (λ k, replicate
               (field_count
                  (index (VObj [("o:tag", VArr [VStr "x"; VStr "y"]);
                                ("cc", VNull); ("to", VStr "a@b.c")]) k)) k).
Proof.
  exact (createFormData_field_names
           (VObj [("o:tag", VArr [VStr "x"; VStr "y"]); ("cc", VNull);
                  ("to", VStr "a@b.c")])
           [mkField "o:tag" (VStr "x") None; mkField "o:tag" (VStr "y") None;
            mkField "to" (VStr "a@b.c") None]
           eq_refl).
Defined.

(** X5. A key whose value is truthy and not an array gives exactly one
    field: the value itself without options when the key is not reserved,
    the field of the one spec when it is [attachment] or [inline]. The test
    [data[key] != null] of line 194 never fails on a kept key. *)
Theorem createFormData_single_field (data : value) (fields : list Field)
    (k : string) (v : value) :
  NoDup (own_entries data).*1 →
  Request.createFormData data = Normal (VFormData fields) →
  obj_lookup k (own_entries data) = Some v →
  truthy v = true → Array_isArray v = false →
  loose_neq_null v = true
  ∧ (reserved k = false → named k fields = [mkField k v None])
  ∧ (reserved k = true →
       ∃ f, named k fields = [f]
            ∧ Request.append_attachment k [] v = Normal [f]).
Proof.
  intros Hnd Hfd Hl Ht Harr.
  pose proof (truthy_not_nullish _ Ht) as Hnv.
  split; [unfold loose_neq_null; by rewrite Hnv|].
  destruct (createFormData_inv _ _ Hfd) as [Hn _].
  pose proof (index_own _ _ _ Hn Hl) as Hidx.
  destruct (createFormData_named data fields k Hnd Hfd) as [[Hk _]|[_ Hc]].
  { exfalso. apply Hk. apply kept_keys_elem.
    split; [by eapply lookup_own_key | by rewrite Hidx]. }
  revert Hc. unfold Request.reducer. fold (reserved k). rewrite Hidx, Harr.
  destruct (reserved k).
  - intros Hc. split; [done|]. intros _.
    destruct (append_attachment_total k [] v Hnv) as (f & _ & Hf & _).
    exists f. split; [|done]. congruence.
  - unfold loose_neq_null. rewrite Hnv. simpl. intros [= <-]. by split.
Qed.

Lemma createFormData_single_field_witness :
  named "to" [mkField "to" (VStr "a@b.c") None; mkField "text" (VNum 7) None]
  = [mkField "to" (VStr "a@b.c") None].
Proof.
  refine (proj1 (proj2
    (createFormData_single_field
       (VObj [("to", VStr "a@b.c"); ("text", VNum 7)])
       [mkField "to" (VStr "a@b.c") None; mkField "text" (VNum 7) None]
       "to" (VStr "a@b.c") _ eq_refl eq_refl eq_refl eq_refl)) eq_refl).
  compute_done.
Defined.

End FieldOrder.

(** ** What else reaches the transport *)

Lemma sent_options_lookup `{Collaborators} (this : This.t)
    (method url : string) (inputOptions : value) (k : string) :
  NoDup (spread inputOptions).*1 →
  obj_lookup k (sent_options this method url inputOptions)
  = match obj_lookup k (Request.move_query
                          (obj_delete "headers" (spread inputOptions))) with
    | Some v => Some v
    | None =>
        obj_lookup k
          [("method", VStr (toLocaleUpperCase method));
           ("headers", VObj (outgoing_headers this inputOptions));
           ("throwHttpErrors", VBool false);
           ("timeout", This.timeout this)]
    end.
Proof.
  intros Hnd. unfold sent_options, Request.ky_call. simpl.
  by rewrite obj_lookup_assign by by apply move_query_NoDup, obj_delete_NoDup.
Qed.

Lemma sent_options_lookup_passed `{Collaborators} (this : This.t)
    (method url : string) (inputOptions : value) (k : string) :
  NoDup (spread inputOptions).*1 →
  k ≠ "headers" → k ≠ "query" → k ≠ "searchParams" →
  obj_lookup k (sent_options this method url inputOptions)
  = match obj_lookup k (spread inputOptions) with
    | Some v => Some v
    | None => obj_lookup k (literal_defaults this method)
    end.
Proof.
  intros Hnd Hh Hq Hs. rewrite sent_options_lookup by done.
  rewrite move_query_lookup_other by done.
  rewrite obj_lookup_delete, decide_False by done.
  destruct (obj_lookup k (spread inputOptions)); [done|].
  unfold literal_defaults. cbn [obj_lookup].
  destruct (String.eqb_spec "headers" k); [congruence|done].
Qed.

(** X6. Every key of the caller's options other than [headers], [query] and
    [searchParams] reaches the transport with the caller's value, also over
    the entries the method sets itself: [method] is the upper-cased verb,
    [throwHttpErrors] is [false] and [timeout] is the instance's only where
    the options do not say otherwise. *)
Theorem options_pass_through `{Collaborators} (this : This.t)
    (method url : string) (inputOptions : value) (k : string) :
  NoDup (spread inputOptions).*1 →
  k ≠ "headers" → k ≠ "query" → k ≠ "searchParams" →
  obj_lookup k (sent_options this method url inputOptions)
  = match obj_lookup k (spread inputOptions) with
    | Some v => Some v
    | None => obj_lookup k (literal_defaults this method)
    end.
Proof. apply sent_options_lookup_passed. Qed.

Lemma options_pass_through_witness :
  obj_lookup "throwHttpErrors"
    (sent_options (H := Lab.collaborators Lab.ok_reply) (Lab.this (VObj []))
       "get" "/v3/domains"
       (VObj [("throwHttpErrors", VBool true); ("retry", VNum 2)]))
  = Some (VBool true).
Proof.
  refine (options_pass_through (H := Lab.collaborators Lab.ok_reply)
            (Lab.this (VObj [])) "get" "/v3/domains"
            (VObj [("throwHttpErrors", VBool true); ("retry", VNum 2)])
            "throwHttpErrors" _ _ _ _); [compute_done|done..].
Defined.

(** X7. A call of [command] whose options carry no [headers] entry sends
    [Content-Type: application/x-www-form-urlencoded], whatever the instance
    default headers say; and the body handed to the transport is the [data]
    argument unless the options carry a [body] of their own. *)
Theorem command_defaults `{Collaborators} (this : This.t)
    (method url : string) (data options : value) :
  NoDup (spread options).*1 →
  NoDup (instance_headers this).*1 →
  let inputOptions := Request.command_options data options in
  (obj_lookup "headers" (spread options) = None →
     obj_lookup "Content-Type" (outgoing_headers this inputOptions)
     = Some (VStr "application/x-www-form-urlencoded"))
  ∧ obj_lookup "body" (sent_options this method url inputOptions)
    = Some (default data (obj_lookup "body" (spread options))).
Proof.
  intros Hopts Hinst inputOptions.
  assert (NoDup (spread inputOptions).*1) as Hnd.
  { subst inputOptions. unfold Request.command_options. simpl.
    apply obj_assign_NoDup. compute_done. }
  split.
  - intros Hnone.
    assert (call_level_headers inputOptions
            = [("Content-Type", VStr "application/x-www-form-urlencoded")])
      as Hcall.
    { unfold call_level_headers, opt_get. simpl.
      rewrite obj_lookup_assign by done. by rewrite Hnone. }
    unfold outgoing_headers.
    rewrite strip_content_type_lookup, decide_True by done.
    rewrite merged_headers_lookup by (rewrite ?Hcall; done || compute_done).
    by rewrite Hcall.
  - rewrite sent_options_lookup_passed by done.
    subst inputOptions. unfold Request.command_options. simpl.
    rewrite obj_lookup_assign by done.
    by destruct (obj_lookup "body" (spread options)).
Qed.

Lemma command_defaults_witness :
  obj_lookup "Content-Type"
    (outgoing_headers (H := Lab.collaborators Lab.ok_reply)
       (Lab.this (VObj [("Content-Type", VStr "application/json")]))
       (Request.command_options (VSearchParams [("to", "a@b.c")]) VUndefined))
  = Some (VStr "application/x-www-form-urlencoded").
Proof.
  refine (proj1
    (command_defaults (H := Lab.collaborators Lab.ok_reply)
       (Lab.this (VObj [("Content-Type", VStr "application/json")]))
       "post" "/v3/messages" (VSearchParams [("to", "a@b.c")]) VUndefined _ _)
    eq_refl); compute_done.
Defined.

(** ** The credential *)

Lemma Authorization_not_index : ¬ index_key "Authorization".
Proof. by intros [n Hn]. Qed.

Lemma Content_Type_not_index : ¬ index_key "Content-Type".
Proof. by intros [n Hn]. Qed.

(** X8. Every request carries an [Authorization] header. In the order in
    which the headers object lists its names, [Authorization] is the first
    of the names that are not array indices: only array indices, which the
    engine lists first whenever they were set, come before it. No header
    name occurs twice, the names are in the engine's order, and the value is
    the computed Basic credential whenever neither the instance default
    headers nor the call-level headers name [Authorization]. *)
Theorem authorization_always_sent `{Collaborators} (this : This.t)
    (inputOptions : value) :
  (∃ indices v rest,
      outgoing_headers this inputOptions = indices ++ ("Authorization", v) :: rest
      ∧ Forall (λ kv, index_key kv.1) indices
      ∧ Forall (λ kv, ¬ index_key kv.1) rest
      ∧ (obj_lookup "Authorization" (instance_headers this) = None →
         obj_lookup "Authorization" (call_level_headers inputOptions) = None →
         v = authorization this))
  ∧ NoDup (outgoing_headers this inputOptions).*1
  ∧ ordered (outgoing_headers this inputOptions).
Proof.
  unfold outgoing_headers.
  set (merged := Request.merged_headers this (spread inputOptions)).
  assert (NoDup merged.*1) as Hnd.
  { unfold merged, Request.merged_headers. do 2 apply obj_assign_NoDup.
    compute_done. }
  assert (ordered merged) as Hord.
  { unfold merged, Request.merged_headers. do 2 apply ordered_assign.
    repeat constructor. }
  assert (∃ v rest,
            filter (λ kv, ¬ index_key kv.1) merged = ("Authorization", v) :: rest)
    as (v & rest & Hothers).
  { unfold merged, Request.merged_headers.
    edestruct (others_assign_head
                 [("Authorization",
                   VStr ("Basic " +:+ Btoa (This.username this +:+ ":"
                                              +:+ This.key this)))]
                 (spread (This.headers this))) as (w & qs & Hw).
    { rewrite filter_cons_True by apply Authorization_not_index. done. }
    by eapply others_assign_head. }
  pose proof (Forall_filter_self (λ kv, index_key kv.1) merged) as Hindices.
  pose proof (Forall_filter_self (λ kv, ¬ index_key kv.1) merged) as Hrest.
  rewrite Hothers in Hrest. apply Forall_cons in Hrest as [_ Hrest].
  pose proof (ordered_split merged Hord) as Hsplit. rewrite Hothers in Hsplit.
  set (indices := filter (λ kv, index_key kv.1) merged) in *.
  split; [|split].
  - exists (if negb (truthy (index (VObj merged) "Content-Type"))
            then obj_delete "Content-Type" indices else indices).
    exists v.
    exists (if negb (truthy (index (VObj merged) "Content-Type"))
            then obj_delete "Content-Type" rest else rest).
    split; [|split; [|split]].
    + unfold Request.strip_content_type. case_match; [|done].
      rewrite Hsplit at 1. unfold obj_delete.
      by rewrite filter_app, filter_cons_True.
    + case_match; [|done]. by apply Forall_filtered.
    + case_match; [|done]. by apply Forall_filtered.
    + intros Hinst Hcall.
      assert (obj_lookup "Authorization" merged = Some (authorization this)) as Hl.
      { unfold merged, Request.merged_headers.
        rewrite obj_lookup_assign_None by done.
        by rewrite obj_lookup_assign_None. }
      assert (obj_lookup "Authorization" merged = Some v) as Hv.
      { apply obj_lookup_elem_NoDup; [done|]. rewrite Hsplit.
        apply elem_of_app. right. left. }
      congruence.
  - unfold Request.strip_content_type. case_match; [|done].
    by apply obj_delete_NoDup.
  - unfold Request.strip_content_type. case_match; [|done].
    by apply ordered_delete.
Qed.

Lemma authorization_always_sent_witness :
  let this :=
    Lab.this (VObj (object_literal [("X-Env", VStr "prod"); ("1", VStr "one")])) in
  let inputOptions :=
    VObj [("headers",
           VObj (object_literal [("Content-Type", VNull); ("0", VStr "zero")]))] in
  outgoing_headers (H := Lab.collaborators Lab.ok_reply) this inputOptions
  = [("0", VStr "zero"); ("1", VStr "one");
     ("Authorization", VStr "Basic YXBpOmtleS0x"); ("X-Env", VStr "prod")]
  ∧ ordered (outgoing_headers (H := Lab.collaborators Lab.ok_reply)
               this inputOptions).
Proof.
  intros this inputOptions. split; [reflexivity|].
  exact (proj2 (proj2
    (authorization_always_sent (H := Lab.collaborators Lab.ok_reply)
       this inputOptions))).
Defined.

(** ** The inferred options *)

Lemma inferred_shape (item : value) :
  Forall (λ kv, kv.1 ∈ ["filename"; "contentType"; "knownLength"]
                ∧ truthy kv.2 = true) (inferred item)
  ∧ ∃ name, obj_lookup "filename" (inferred item) = Some name.
Proof.
  unfold inferred. split; [|by eexists].
  apply Forall_app. split; [|apply Forall_app; split].
  - apply Forall_singleton. split; [by left|]. simpl.
    by destruct (truthy (index item "filename")) eqn:Hf.
  - destruct (truthy (index item "contentType")) eqn:Hc; [|done].
    apply Forall_singleton. split; [|done]. right. by left.
  - destruct (truthy (index item "knownLength")) eqn:Hk; [|done].
    apply Forall_singleton. split; [|done]. right. right. by left.
Qed.

(** X9. [getAttachmentOptions] throws on [null] only. Otherwise it returns
    an object that holds no key besides [filename], [contentType] and
    [knownLength] and no falsy value; the object is empty exactly for a
    stream and for a value that is not an object, and has a [filename]
    whenever it is not empty. *)
Theorem getAttachmentOptions_shape (item : value) :
  ((∃ e, getAttachmentOptions item = Throw e) ↔ item = VNull)
  ∧ (∀ o, getAttachmentOptions item = Normal o →
       ∃ ps, o = VObj ps
         ∧ Forall (λ kv, kv.1 ∈ ["filename"; "contentType"; "knownLength"]
                         ∧ truthy kv.2 = true) ps
         ∧ (ps = [] ↔ typeof item ≠ "object" ∨ isStream item = Normal true)
         ∧ (ps ≠ [] → ∃ name, obj_lookup "filename" ps = Some name)).
Proof.
  destruct (decide (typeof item = "object")) as [Hty|Hty].
  - destruct (nullish item) eqn:Hn.
    + assert (item = VNull) as -> by (by destruct item).
      split; [split; [done | intros _; by eexists]|]. by intros o.
    + assert (item ≠ VNull) as Hnull by (by intros ->).
      destruct (isStream_total item Hn) as [[] Hs].
      * rewrite (getAttachmentOptions_stream item Hs).
        split; [split; [by intros [e ?] | done]|].
        intros o [= <-]. exists []. split; [done|]. split; [done|].
        split; [split; [by right | done] | done].
      * rewrite (getAttachmentOptions_object item Hty Hn Hs).
        split; [split; [by intros [e ?] | done]|].
        intros o [= <-]. exists (inferred item).
        destruct (inferred_shape item) as [Hall Hname].
        split; [done|]. split; [done|]. split; [|done].
        split; [by intros Hnil | intros [?|?]; congruence].
  - rewrite (getAttachmentOptions_not_object item Hty).
    split; [split; [by intros [e ?] | intros ->; by destruct Hty]|].
    intros o [= <-]. exists []. split; [done|]. split; [done|].
    split; [split; [by left | done] | done].
Qed.

(** ** The url-encoded body *)

(** X10. [objectToURLSearchParams] returns [null] exactly on a falsy input
    ([0], the empty string and [false] included); on any other input it
    returns pairs whose keys are [Object.keys] of the input, in order, and
    reading the pairs back as strings gives the input's entries whenever all
    its values are strings. *)
Theorem objectToURLSearchParams_round_trip (data : value) :
  (Request.objectToURLSearchParams data = VNull ↔ truthy data = false)
  ∧ (truthy data = true →
       ∃ pairs,
         Request.objectToURLSearchParams data = VSearchParams pairs
         ∧ Object_keys data = Normal pairs.*1
         ∧ (Forall (λ kv, ∃ s, kv.2 = VStr s) (own_entries data) →
              pairs_as_entries pairs = own_entries data)).
Proof.
  unfold Request.objectToURLSearchParams. split.
  - by destruct (truthy data).
  - intros Ht. rewrite Ht. simpl. eexists. split; [done|]. split.
    + unfold Object_keys. rewrite (truthy_not_nullish _ Ht). f_equal.
      rewrite <- list_fmap_compose. by apply list_fmap_ext.
    + intros Hall. unfold pairs_as_entries. rewrite <- list_fmap_compose.
      rewrite <- (list_fmap_id (own_entries data)) at 2.
      apply Forall_fmap_ext. eapply Forall_impl; [exact Hall|].
      intros [k v] [s Hs]. simpl in *. by subst.
Qed.

Lemma objectToURLSearchParams_round_trip_witness :
  ∃ pairs,
    Request.objectToURLSearchParams
      (VObj [("to", VStr "a@b.c"); ("subject", VStr "hi")])
    = VSearchParams pairs
    ∧ pairs_as_entries pairs = [("to", VStr "a@b.c"); ("subject", VStr "hi")].
Proof.
  destruct (proj2 (objectToURLSearchParams_round_trip
                     (VObj [("to", VStr "a@b.c"); ("subject", VStr "hi")]))
              eq_refl) as (pairs & Hp & _ & Hback).
  exists pairs. split; [done|]. apply Hback.
  repeat constructor; by eexists.
Defined.

(** ** A new instance *)

(** X11. An instance constructed without headers (or with a falsy
    [headers]) has the empty object as default headers, so a [query] call
    whose options name no [headers] sends the [Authorization] header built
    from the constructor's [username] and [key], and nothing else. *)
Theorem constructed_instance_headers `{Collaborators}
    (opts : RequestOptions.t) (q options : value) :
  truthy (RequestOptions.headers opts) = false →
  NoDup (spread options).*1 →
  obj_lookup "headers" (spread options) = None →
  This.headers (Request.constructor opts) = VObj []
  ∧ outgoing_headers (Request.constructor opts) (Request.query_options q options)
    = [("Authorization",
        VStr ("Basic " +:+ Btoa (RequestOptions.username opts +:+ ":"
                                   +:+ RequestOptions.key opts)))].
Proof.
  intros Hfalsy Hnd Hnone.
  assert (This.headers (Request.constructor opts) = VObj []) as Hinst.
  { unfold Request.constructor. simpl. by rewrite Hfalsy. }
  split; [done|].
  unfold outgoing_headers, Request.merged_headers. rewrite Hinst.
  assert (opt_get (VObj (spread (Request.query_options q options))) "headers"
          = VUndefined) as ->.
  { unfold opt_get. cbn [nullish own_entries inherent].
    rewrite query_options_lookup_other by done. by rewrite Hnone. }
  reflexivity.
Qed.

Lemma constructed_instance_headers_witness :
  outgoing_headers (H := Lab.collaborators Lab.ok_reply)
    (Request.constructor
       (RequestOptions.mk "api" "key-1" "https://api.mailgun.net"
          (VNum 60000) VUndefined))
    (Request.query_options (VObj [("limit", VNum 10)]) VUndefined)
  = [("Authorization", VStr "Basic YXBpOmtleS0x")].
Proof.
  refine (proj2
    (constructed_instance_headers (H := Lab.collaborators Lab.ok_reply)
       (RequestOptions.mk "api" "key-1" "https://api.mailgun.net"
          (VNum 60000) VUndefined)
       (VObj [("limit", VNum 10)]) VUndefined eq_refl _ eq_refl)).
  compute_done.
Defined.

(** ** What the transport shares with the caller *)

(** X12. Over the object store: the object handed to the transport is new,
    its [headers] is a new object too, and every other value in it is the
    caller's own, not a copy: the [searchParams] is the very value under the
    caller's [query] (the same object when it is one), and each further key
    of the caller's options holds the caller's value. *)
Theorem transport_shares_values `{Collaborators} (h : Store.heap)
    (this : Store.loc) (method url : string) (inputOptions q : Store.val) :
  Reading.closed h → is_Some (h !! this) → Reading.valid h inputOptions →
  NoDup (Store.own_entries h inputOptions).*1 →
  let r := Store.prepare this method url inputOptions h in
  ∃ lh ll o,
    r.1.2 = Store.Ref ll ∧ h !! ll = None ∧ h !! lh = None
    ∧ r.2 !! ll = Some o
    ∧ obj_lookup "headers" (Store.props_of o) = Some (Store.Ref lh)
    ∧ (obj_lookup "query" (Store.own_entries h inputOptions) = Some q →
       Store.truthy q = true → Store.own_property_names h q ≠ [] →
       obj_lookup "searchParams" (Store.props_of o) = Some q
       ∧ obj_lookup "query" (Store.props_of o) = None)
    ∧ (∀ k v,
         k ∉ ["method"; "headers"; "throwHttpErrors"; "timeout";
              "query"; "searchParams"] →
         obj_lookup k (Store.own_entries h inputOptions) = Some v →
         obj_lookup k (Store.props_of o) = Some v).
Proof.
  intros Hclosed Hthis Hinput Hnd r.
  destruct (PrepareFacts.prepare_result h this method url inputOptions
              Hclosed Hthis Hinput) as (lh & ll & Hr & Hlh & Hll & _ & Hll').
  fold r in Hr, Hll'. eexists lh, ll, _.
  split; [by rewrite Hr|]. split; [done|]. split; [done|].
  split; [exact Hll'|]. cbn [Store.props_of].
  set (entries := Store.own_entries h inputOptions) in *.
  set (options := obj_delete "headers" entries).
  assert (NoDup options.*1) as Hoptions by (by apply obj_delete_NoDup).
  assert (NoDup (Store.params_of h inputOptions).*1) as Hparams.
  { unfold Store.params_of. fold entries options. case_match; [|done].
    by apply obj_delete_NoDup, obj_set_NoDup. }
  assert (∀ k, k ≠ "query" → k ≠ "searchParams" → k ≠ "headers" →
               obj_lookup k (Store.params_of h inputOptions)
               = obj_lookup k entries) as Hother.
  { intros k Hq Hs Hh. unfold Store.params_of. fold entries options.
    case_match.
    - rewrite obj_lookup_delete, decide_False by done.
      rewrite obj_lookup_set, decide_False by done.
      subst options. by rewrite obj_lookup_delete, decide_False.
    - subst options. by rewrite obj_lookup_delete, decide_False. }
  split; [|split].
  - rewrite obj_lookup_assign by done.
    assert (obj_lookup "headers" (Store.params_of h inputOptions) = None) as ->;
      [|done].
    unfold Store.params_of. fold entries options. case_match.
    + rewrite obj_lookup_delete, decide_False by done.
      rewrite obj_lookup_set, decide_False by done.
      subst options. by rewrite obj_lookup_delete, decide_True.
    + subst options. by rewrite obj_lookup_delete, decide_True.
  - intros Hq Ht Hnames. rewrite !obj_lookup_assign by done.
    unfold Store.params_of. fold entries options.
    assert (obj_lookup "query" options = Some q) as Hq'.
    { subst options. by rewrite obj_lookup_delete, decide_False. }
    rewrite Hq'. cbn [default from_option id]. rewrite Ht.
    destruct (Store.own_property_names h q) as [|n ns]; [done|]. simpl.
    rewrite !obj_lookup_delete, obj_lookup_set.
    by rewrite decide_False, decide_True, decide_True.
  - intros k v Hk Hv. rewrite obj_lookup_assign by done.
    rewrite Hother, Hv; [done|..]; intros ->; apply Hk; compute_done.
Qed.

Lemma transport_shares_values_witness :
  let r := Store.prepare (H := Lab.collaborators Lab.ok_reply)
             1%positive "get" "/v3/domains" (Store.Ref 3%positive) demo_heap in
  ∃ o, r.2 !! 9%positive = Some o
       ∧ obj_lookup "searchParams" (Store.props_of o)
         = Some (Store.Ref 5%positive).
Proof.
  intros r.
  destruct (transport_shares_values (H := Lab.collaborators Lab.ok_reply)
              demo_heap 1%positive "get" "/v3/domains" (Store.Ref 3%positive)
              (Store.Ref 5%positive))
    as (lh & ll & o & Hr & _ & _ & Ho & _ & Hq & _).
  - intros l o Hl. apply demo_heap_objects in Hl. vm_compute in Hl.
    repeat (apply elem_of_cons in Hl as [[= -> ->]|Hl];
            [repeat constructor; intros ? [= <-]; by eexists|]).
    by apply elem_of_nil in Hl.
  - by eexists.
  - intros ? [= <-]. by eexists.
  - compute_done.
  - fold r in Hr, Ho.
    assert (ll = 9%positive) as -> by (vm_compute in Hr; by injection Hr).
    exists o. split; [done|]. by apply Hq.
Defined.

(** ** Falsy entries do not matter *)

Section FalsyEntries.
Implicit Types (props suffix : Props) (k : string).

Lemma reducer_index (data data' : value) (acc : list Field) k :
  index data k = index data' k →
  Request.reducer data acc k = Request.reducer data' acc k.
Proof. intros Hidx. unfold Request.reducer. by rewrite Hidx. Qed.

Lemma forEach_reducer_ext (data data' : value) (keys : list string)
    (acc : list Field) :
  Forall (λ k, index data k = index data' k) keys →
  forEach (Request.reducer data) keys acc
  = forEach (Request.reducer data') keys acc.
Proof.
  intros Hkeys. revert acc.
  induction Hkeys as [|k keys Hk _ IH]; intros acc; simpl; [done|].
  rewrite (reducer_index data data' acc k Hk).
  destruct (Request.reducer data' acc k); simpl; [apply IH | done].
Qed.

Lemma kept_keys_suffix props suffix :
  Forall (λ kv, obj_lookup kv.1 props = Some kv.2) suffix →
  List.filter (λ key, truthy (index (VObj props) key)) suffix.*1
  = (filter (λ kv, truthy kv.2 = true) suffix).*1.
Proof.
  induction 1 as [|[k v] suffix Hkv _ IH]; [done|].
  rewrite fmap_cons, filter_cons. cbn [List.filter fst snd].
  assert (index (VObj props) k = v) as ->.
  { unfold index, opt_get. simpl in *. by rewrite Hkv. }
  rewrite IH. destruct (truthy v) eqn:Hv.
  - by rewrite decide_True.
  - rewrite decide_False; [done | congruence].
Qed.

Lemma entries_lookup props :
  NoDup props.*1 → Forall (λ kv, obj_lookup kv.1 props = Some kv.2) props.
Proof.
  intros Hnd. apply Forall_forall. intros [k v] Hkv.
  by apply obj_lookup_elem_NoDup.
Qed.

Lemma filter_keys_NoDup props (P : string * value → Prop)
    `{∀ kv, Decision (P kv)} :
  NoDup props.*1 → NoDup (filter P props).*1.
Proof.
  induction props as [|[k v] props IH]; [done|].
  rewrite fmap_cons. intros [Hnin Hnd]%NoDup_cons. rewrite filter_cons.
  case_decide; [|by apply IH]. rewrite fmap_cons. apply NoDup_cons.
  split; [|by apply IH]. intros Hin. apply Hnin.
  apply list_elem_of_fmap in Hin as [[k0 v0] [-> Hin]].
  apply list_elem_of_filter in Hin as [_ Hin].
  apply list_elem_of_fmap. by exists (k0, v0).
Qed.

(** X13. Removing the entries with a falsy value from the input beforehand
    changes nothing: [createFormData] gives the same result on the input and
    on the input without them. *)
Theorem createFormData_ignores_falsy props :
  NoDup props.*1 →
  Request.createFormData (VObj props)
  = Request.createFormData (VObj (filter (λ kv, truthy kv.2 = true) props)).
Proof.
  intros Hnd. set (props' := filter (λ kv, truthy kv.2 = true) props).
  assert (NoDup props'.*1) as Hnd' by (by apply filter_keys_NoDup).
  unfold Request.createFormData, Object_keys. simpl.
  rewrite (kept_keys_suffix props props) by by apply entries_lookup.
  rewrite (kept_keys_suffix props' props') by by apply entries_lookup.
  fold props'.
  assert (filter (λ kv, truthy kv.2 = true) props' = props') as ->.
  { subst props'. apply list_filter_filter_l. done. }
  rewrite (forEach_reducer_ext (VObj props) (VObj props')); [done|].
  apply Forall_fmap, Forall_forall. intros [k v] Hkv. simpl.
  pose proof Hkv as Hkv'. apply list_elem_of_filter in Hkv' as [_ Hkv'].
  unfold index, opt_get. simpl.
  by rewrite (obj_lookup_elem_NoDup k v props),
             (obj_lookup_elem_NoDup k v props').
Qed.

Lemma createFormData_ignores_falsy_witness :
  Request.createFormData
    (VObj [("to", VStr "a@b.c"); ("cc", VNull); ("o:tracking", VBool false)])
  = Request.createFormData (VObj [("to", VStr "a@b.c")]).
Proof.
  refine (createFormData_ignores_falsy
            [("to", VStr "a@b.c"); ("cc", VNull); ("o:tracking", VBool false)]
            _).
  compute_done.
Defined.

End FalsyEntries.
